(** * mkbench write: reduction and aggregation of write-throughput data

    A shallow embedding of [internal/mkbench/write.go]: the raw data
    points, the per-worker reducer, the aggregation tree, the incremental
    merge with previously cooked summaries and the two emitted artifacts.

    Conventions.
    - Go's [int] is a 64-bit two's complement integer: values are [Z] and
      every addition of the source goes through [wrap64].
    - Go's [float64] is the kernel's binary64 [float].
    - Go maps are [gmap]s.  The order in which [range] visits a map is not
      specified by the language, so every loop over a map takes the
      enumeration it walks from a [MapOrder]; the theorems quantify over
      all of them.
    - Standard error is a list of diagnostics, oldest first. *)

From Stdlib Require Import ZArith Floats Uint63 Ascii.
From stdpp Require Import gmap strings list sorting pretty.

Local Open Scope Z_scope.

(** ** Machine integers *)

Definition wrap64 (z : Z) : Z := (z + 2 ^ 63) `mod` 2 ^ 64 - 2 ^ 63.

Definition int64_range (z : Z) : Prop := - 2 ^ 63 ≤ z < 2 ^ 63.

(** [a + b] on Go's [int]. *)
Definition int_add (a b : Z) : Z := wrap64 (a + b).

(** ** Data points *)

(** [writePoint]: a raw datapoint of one benchmark run. *)
Record writePoint := mkPoint {
  elapsedSecs : Z;
  opsSec : Z;
  passed : bool;
  size : Z;
  levels : Z;
  writeAmp : float;
}.

(** [rawWriteRun]: the datapoints of one worker, and the memoized split. *)
Record rawWriteRun := mkRaw {
  points : list writePoint;
  split : Z;
}.

(** The zero value [rawWriteRun{}]. *)
Definition rawWriteRun_zero : rawWriteRun := mkRaw [] 0.

(** ** The reducer *)

Module Split.

(** Number of samples a threshold [t] puts on the wrong side: passing
    samples below [t] and failing samples at or above [t]. *)
Definition misclassified (passes fails : list Z) (t : Z) : nat :=
  Nat.add (length (filter (λ p, p < t) passes))
          (length (filter (λ f, t ≤ f) fails)).

(** One step of the scan over the candidates: [c] replaces the best
    threshold so far when it misclassifies fewer samples, or as many and
    is lower. *)
Definition better (passes fails : list Z) (best c : Z) : Z :=
  let mb := misclassified passes fails best in
  let mc := misclassified passes fails c in
  if decide (mc < mb)%nat then c
  else if decide (mc = mb ∧ c < best) then c
  else best.

Definition list_min (x : Z) (l : list Z) : Z := foldl Z.min x l.
Definition list_max (x : Z) (l : list Z) : Z := foldl Z.max x l.

(** Modelled from the spec: [findOptimalSplit], which lives in split.go
    and is not among the sources; write.go only calls it.  Section 4.2
    of the specification: the threshold is the candidate of
    [passes ++ fails] with the fewest misclassified samples, the lowest
    one among ties; when there is no failing sample it is the minimum of
    the passing values, when there is no passing sample it is the
    maximum of the failing values plus one.  The specification gives no
    result for two empty sequences (such a run never reaches the
    reducer); the zero value stands for it here. *)
Definition findOptimalSplit (passes fails : list Z) : Z :=
  match passes, fails with
  | [], [] => 0
  | p :: ps, [] => list_min p ps
  | [], f :: fs => list_max f fs + 1
  | p :: _, _ :: _ => foldl (better passes fails) p (passes ++ fails)
  end.

End Split.

(** The partitioning loop of [opsPerSecSplit]: one pass over the points,
    appending each [opsSec] to [passes] or to [fails]. *)
Definition partition_step (acc : list Z * list Z) (p : writePoint)
  : list Z * list Z :=
  if passed p then (acc.1 ++ [opsSec p], acc.2)
  else (acc.1, acc.2 ++ [opsSec p]).

Definition partition_points (ps : list writePoint) : list Z * list Z :=
  foldl partition_step ([], []) ps.

(** [(r *rawWriteRun) opsPerSecSplit]: the returned split and the receiver
    after the call (the method memoizes through its pointer receiver). *)
Definition opsPerSecSplit (r : rawWriteRun) : Z * rawWriteRun :=
  if decide (0 < split r) then (split r, r)
  else
    let '(passes, fails) := partition_points (points r) in
    let s := Split.findOptimalSplit passes fails in
    (s, mkRaw (points r) s).

(** The passing and the failing ops/sec values of a run, in sample order. *)
Definition passing (r : rawWriteRun) : list Z :=
  opsSec <$> filter (λ p, passed p = true) (points r).
Definition failing (r : rawWriteRun) : list Z :=
  opsSec <$> filter (λ p, passed p = false) (points r).

(** ** Floating point helpers (Go's conversions and [math.Round]) *)

(** [float64(z)] for an [int] [z]: the nearest binary64. *)
Definition float_of_int (z : Z) : float :=
  if decide (z < 0) then PrimFloat.opp (PrimFloat.of_uint63 (Uint63.of_Z (- z)))
  else PrimFloat.of_uint63 (Uint63.of_Z z).

(** [int(x)] for a [float64] [x]: the fraction is discarded (truncation
    towards zero).  Infinities and NaN, for which Go leaves the result to
    the implementation, give 0 here; no caller produces them. *)
Definition int_of_float (x : float) : Z :=
  match Prim2SF x with
  | S754_finite s m e =>
      let v := if decide (0 ≤ e) then Z.pos m * 2 ^ e
               else Z.pos m `div` 2 ^ (- e) in
      if s then - v else v
  | _ => 0
  end.

(** [math.Round]: the nearest integer, halves away from zero; zeros,
    infinities and NaN are returned unchanged. *)
Definition math_Round (x : float) : float :=
  match Prim2SF x with
  | S754_finite s m e =>
      if decide (0 ≤ e) then x
      else
        let d := 2 ^ (- e) in
        let q := Z.pos m `div` d in
        let n := if decide (d ≤ 2 * (Z.pos m `mod` d)) then q + 1 else q in
        if s then PrimFloat.opp (float_of_int n) else float_of_int n
  | _ => x
  end.

(** [(d Duration) Seconds]: a duration in nanoseconds as floating point
    seconds, whole seconds and fraction converted separately. *)
Definition Seconds (d : Z) : float :=
  PrimFloat.add (float_of_int (d `quot` 1000000000))
    (PrimFloat.div (float_of_int (d `rem` 1000000000)) 1e9%float).

(** ** Formatting *)

Definition nl : string := String (Ascii.ascii_of_nat 10) "".

(** The verb [%v] on a [bool]. *)
Definition fmt_bool (b : bool) : string := if b then "true" else "false".

(** The verb [%d]. *)
Definition fmt_int (z : Z) : string := pretty z.

Definition two_digits (z : Z) : string :=
  if decide (z < 10) then "0" +:+ pretty z else pretty z.

(** The verb [%.2f]: the exact value of the binary64, rounded to the nearest
    hundredth (ties to even), with two digits after the point. *)
Definition fmt_f2 (x : float) : string :=
  match Prim2SF x with
  | S754_nan => "NaN"
  | S754_infinity s => if s then "-Inf" else "+Inf"
  | S754_zero s => (if s then "-" else "") +:+ "0.00"
  | S754_finite s m e =>
      let h :=
        if decide (0 ≤ e) then Z.pos m * 100 * 2 ^ e
        else
          let d := 2 ^ (- e) in
          let q := (Z.pos m * 100) `div` d in
          let r := (Z.pos m * 100) `mod` d in
          if decide (d < 2 * r) then q + 1
          else if decide (d = 2 * r ∧ Z.odd q = true) then q + 1
          else q in
      (if s then "-" else "") +:+ pretty (h `div` 100) +:+ "." +:+
      two_digits (h `mod` 100)
  end.

(** [(p writePoint) formatCSV]: ["%d,%d,%v,%d,%d,%.2f"]. *)
Definition formatCSV_point (p : writePoint) : string :=
  fmt_int (elapsedSecs p) +:+ "," +:+ fmt_int (opsSec p) +:+ "," +:+
  fmt_bool (passed p) +:+ "," +:+ fmt_int (size p) +:+ "," +:+
  fmt_int (levels p) +:+ "," +:+ fmt_f2 (writeAmp p).

(** [(r rawWriteRun) formatCSV]: every point's line written to a buffer
    with ["%s\n"]. *)
Definition formatCSV (r : rawWriteRun) : string :=
  foldl (λ b p, b +:+ formatCSV_point p +:+ nl) "" (points r).

(** [(r *rawWriteRun) writeAmp]: [r.points[len(r.points)-1].writeAmp];
    [None] is the index-out-of-range panic on an empty run. *)
Definition writeAmp_final (r : rawWriteRun) : option float :=
  writeAmp <$> (points r !! (length (points r) - 1)%nat).

(** ** Collaborators

    Library functions and the parts of the command that live outside
    write.go are taken as an interface; the pipeline is written over any
    implementation of it. *)

(** What [fmt.Sscanf] with [rawRunFmt] hands back for one line: the count
    of scanned items, the error if any, and the seven scanned values (the
    point carries six of them once [elapsedSecs] is filled in from
    [sc_elapsed]). *)
Record scanned := mkScanned {
  sc_n : Z;
  sc_err : option string;
  sc_name : string;
  sc_point : writePoint;
  sc_elapsed : string;
}.

(** [writeRunSummary]: one summary datapoint of a [writeRun]. *)
Record writeRunSummary := mkSummary {
  Name : string;
  Date : string;
  OpsSec : Z;
  WriteAmp : float;
  SummaryPath : string;
}.

(** [writeWorkloadSummary] is a slice of [writeRunSummary]. *)
Abbreviation writeWorkloadSummary := (list writeRunSummary).

(** [cookedWriteRun]: the per-file entry of a per-run summary file. *)
Record cookedWriteRun := mkCooked {
  c_OpsSec : Z;
  c_Raw : string;
}.

Class Collaborators := {
  (** [fmt.Sscanf(line, rawRunFmt, ...)] *)
  Sscanf : string → scanned;
  (** [time.ParseDuration]: nanoseconds, or the error *)
  ParseDuration : string → string + Z;
  (** [filepath.Dir] and [filepath.Join] *)
  filepath_Dir : string → string;
  filepath_Join : string → string → string;
  (** [prettyJSON] at the two types it is used at *)
  prettyJSON_summaries : gmap string writeWorkloadSummary → string;
  prettyJSON_run : gmap string cookedWriteRun → string;
  (** [json.Unmarshal] into a [map[string]writeWorkloadSummary] *)
  json_Unmarshal : string → string + gmap string writeWorkloadSummary;
}.

(** An enumeration of a map, as [range] walks it. *)
Class MapOrder := {
  range : ∀ V : Type, gmap string V → list (string * V);
  range_perm : ∀ V (m : gmap string V), range V m ≡ₚ map_to_list m;
}.
Arguments range {_ _} _.

(** ** Diagnostics written to standard error *)

Inductive diag :=
  | DiagOpen (err : string)
  | DiagGzip (err : string)
  | DiagScan (line : string) (err : option string)
  | DiagSkip (pathRel name day : string)
  | DiagNameDiffers (nameInner name line : string)
  | DiagDuration (line : string) (err : string)
  | DiagAdd (name day : string) (nPoints : nat) (file : string).

(** ** The aggregation tree and the loader *)

(** [writeRun]: the raw runs of all workers of one workload on one day. *)
Record writeRun := mkRun {
  name : string;
  date : string;
  dir : string;
  rawRuns : gmap string rawWriteRun;
}.

(** [writeWorkload]: day to run. *)
Record writeWorkload := mkWorkload {
  days : gmap string writeRun;
}.

(** [writeLoader].  [workloads] is [writeWorkloads]; [cooked] is the map
    from [nameDay] to [bool]. *)
Record writeLoader := mkLoader {
  dataDir : string;
  summaryDir : string;
  workloads : gmap string writeWorkload;
  cooked : gmap (string * string) bool;
  cookedSummaries : gmap string writeWorkloadSummary;
}.

(** [summaryFilename]: the filename of the top-level summary. *)
Definition summaryFilename : string := "summary.json".

Definition newWriteLoader (dataDir summaryDir : string) : writeLoader :=
  mkLoader dataDir summaryDir ∅ ∅ ∅.

(** Indexing a [map[nameDay]bool]: the zero value when the key is absent. *)
Definition is_cooked (c : gmap (string * string) bool) (k : string * string)
  : bool :=
  default false (c !! k).

Definition with_workloads (l : writeLoader) (w : gmap string writeWorkload)
  : writeLoader :=
  mkLoader (dataDir l) (summaryDir l) w (cooked l) (cookedSummaries l).

(** [strings.Split(s, sep)] for a one-byte separator. *)
Fixpoint split_on (sep : Ascii.ascii) (s : string) : list string :=
  match s with
  | EmptyString => [EmptyString]
  | String c s' =>
      if decide (c = sep) then EmptyString :: split_on sep s'
      else match split_on sep s' with
           | [] => [String c EmptyString]
           | w :: ws => String c w :: ws
           end
  end.

Definition PathSeparator : Ascii.ascii := "/"%char.

(** [(l *writeLoader) addRawRun]. *)
Definition addRawRun `{Collaborators} (l : writeLoader)
    (nm day path : string) (raw : rawWriteRun) : writeLoader * list diag :=
  if decide (length (points raw) = 0%nat) then (l, [])
  else
    let w := default (mkWorkload ∅) (workloads l !! nm) in
    let r := default (mkRun nm day (filepath_Dir path) ∅) (days w !! day) in
    let r' := mkRun (name r) (date r) (dir r) (<[path := raw]> (rawRuns r)) in
    let w' := mkWorkload (<[day := r']> (days w)) in
    (with_workloads l (<[nm := w']> (workloads l)),
     [DiagAdd nm day (length (points raw)) path]).

(** ** Loading raw data *)

(** What the scanning loop of one file does after a line: go on with the
    run and the benchmark name as they now are, or leave [walkFn]
    ([return nil]) because the file is for a cooked (workload, day). *)
Inductive lineResult :=
  | Continue (r : rawWriteRun) (nm : string)
  | Return.

Definition with_elapsedSecs (p : writePoint) (secs : Z) : writePoint :=
  mkPoint secs (opsSec p) (passed p) (size p) (levels p) (writeAmp p).

(** The body of the [for s.Scan()] loop of [loadRaw], for one line. *)
Definition scanLine `{Collaborators} (ck : gmap (string * string) bool)
    (day pathRel : string) (r : rawWriteRun) (nm : string) (line : string)
  : lineResult * list diag :=
  if negb (String.prefix "BenchmarkRaw" line) then (Continue r nm, [])
  else
    let sc := Sscanf line in
    if decide (sc_err sc ≠ None ∨ sc_n sc ≠ 7)
    then (Continue r nm, [DiagScan line (sc_err sc)])
    else
      let '(nm', skip, d1) :=
        if decide (nm = "") then
          if is_cooked ck (sc_name sc, day)
          then (sc_name sc, true, [DiagSkip pathRel (sc_name sc) day])
          else (sc_name sc, false, [])
        else if decide (nm ≠ sc_name sc)
          then (nm, false, [DiagNameDiffers (sc_name sc) nm line])
          else (nm, false, []) in
      if skip : bool then (Return, d1)
      else
        match ParseDuration (sc_elapsed sc) with
        | inl err => (Continue r nm', d1 ++ [DiagDuration line err])
        | inr d =>
            let p := with_elapsedSecs (sc_point sc) (int_of_float (Seconds d)) in
            (Continue (mkRaw (points r ++ [p]) (split r)) nm', d1)
        end.

(** The loop over the lines the scanner yields: [None] when the file was
    left early, otherwise the run and the name at the end of the file. *)
Fixpoint scanLines `{Collaborators} (ck : gmap (string * string) bool)
    (day pathRel : string) (r : rawWriteRun) (nm : string)
    (lines : list string) : option (rawWriteRun * string) * list diag :=
  match lines with
  | [] => (Some (r, nm), [])
  | line :: rest =>
      match scanLine ck day pathRel r nm line with
      | (Return, d) => (None, d)
      | (Continue r' nm', d) =>
          let '(res, d') := scanLines ck day pathRel r' nm' rest in
          (res, d ++ d')
      end
  end.

(** A regular file under the data directory as [walkFn] meets it: opening
    it fails, reading its gzip header fails, or it yields lines. *)
Inductive fileBody :=
  | OpenError (err : string)
  | GzipError (err : string)
  | Body (lines : list string).

Record rawFile := mkFile {
  f_path : string;
  f_pathRel : string;
  f_body : fileBody;
}.

(** [walkFn], the closure of [loadRaw]. *)
Definition walkFn `{Collaborators} (l : writeLoader) (f : rawFile)
  : writeLoader * list diag :=
  let parts := split_on PathSeparator (f_pathRel f) in
  if decide (length parts < 6)%nat then (l, [])
  else if decide (parts !! 2%nat ≠ Some "write") then (l, [])
  else
    let day := default "" (parts !! 0%nat) in
    match f_body f with
    | OpenError e => (l, [DiagOpen e])
    | GzipError e => (l, [DiagGzip e])
    | Body lines =>
        match scanLines (cooked l) day (f_pathRel f) rawWriteRun_zero "" lines with
        | (None, d) => (l, d)
        | (Some (r, nm), d) =>
            let '(l', d') := addRawRun l nm day (f_pathRel f) r in
            (l', d ++ d')
        end
    end.

(** Modelled from the spec: [walkDir], which is not in write.go.  Section 6:
    the walker yields every regular file under the root directory; here
    the data directory is the sequence of files it yields, and the error
    the walk itself may end with. *)
Record dataTree := mkTree {
  t_files : list rawFile;
  t_walkErr : option string;
}.

(** One call of [walkFn] by the walker: the loader moves on and the
    diagnostics accumulate. *)
Definition walk_step `{Collaborators} (acc : writeLoader * list diag)
    (f : rawFile) : writeLoader * list diag :=
  let '(l1, d1) := walkFn acc.1 f in (l1, acc.2 ++ d1).

(** [(l *writeLoader) loadRaw]. *)
Definition loadRaw `{Collaborators} (l : writeLoader) (t : dataTree)
  : writeLoader * list diag * option string :=
  let '(l', d) := foldl walk_step (l, []) (t_files t) in
  (l', d, t_walkErr t).

(** ** Summaries *)

(** [(r writeRun) summaryFilename]. *)
Definition writeRun_summaryFilename (r : writeRun) : string :=
  String.concat "-" (split_on PathSeparator (dir r) ++ [summaryFilename]).

(** The loop of [summarize]: both running sums, or [None] when
    [writeAmp] panics. *)
Definition summarize_step (acc : option (Z * float)) (kv : string * rawWriteRun)
  : option (Z * float) :=
  '(sumOpsSec, sumWriteAmp) ← acc;
  let s := (opsPerSecSplit kv.2).1 in
  wa ← writeAmp_final kv.2;
  Some (int_add sumOpsSec s, PrimFloat.add sumWriteAmp wa).

(** [(r writeRun) summarize]; [None] is a panic (the last point of an empty
    run, or the integer division by [len(r.rawRuns)] when it is zero). *)
Definition summarize `{MapOrder} (r : writeRun) : option writeRunSummary :=
  '(sumOpsSec, sumWriteAmp) ←
     foldl summarize_step (Some (0, 0%float)) (range (rawRuns r));
  let l := Z.of_nat (base.size (rawRuns r)) in
  if decide (l = 0) then None
  else Some (mkSummary (name r) (date r)
               (sumOpsSec `quot` l)
               (PrimFloat.div
                  (math_Round
                     (PrimFloat.div (PrimFloat.mul 100%float sumWriteAmp)
                        (float_of_int l)))
                  100%float)
               (writeRun_summaryFilename r)).

(** The map built by [formatSummaryJSON] before it is rendered. *)
Definition formatSummary_map `{MapOrder} (r : writeRun)
  : gmap string cookedWriteRun :=
  foldl (λ m kv, <[kv.1 := mkCooked (opsPerSecSplit kv.2).1 (formatCSV kv.2)]> m)
        ∅ (range (rawRuns r)).

(** [(r writeRun) formatSummaryJSON]. *)
Definition formatSummaryJSON `{Collaborators, MapOrder} (r : writeRun) : string :=
  prettyJSON_run (formatSummary_map r).

(** [sort.Strings]. *)
Definition sort_Strings (l : list string) : list string :=
  merge_sort String.le l.

(** The order [sort.Slice] leaves the summaries in: no later entry has a
    smaller date.  Go compares strings byte by byte. *)
Definition date_le (a b : writeRunSummary) : Prop :=
  String.le (Date a) (Date b).

Global Instance date_le_dec : RelDecision date_le :=
  λ a b, decide (String.le (Date a) (Date b)).

(** [sort.Slice(existing, func(i, j) { existing[i].Date < existing[j].Date })].
    Go's sort is not stable; the order it leaves equal dates in is not
    specified, and the theorems below use only that the result is a sorted
    permutation. *)
Definition sort_by_Date (l : writeWorkloadSummary) : writeWorkloadSummary :=
  merge_sort date_le l.

(** [cookWriteSummary]; [None] when a [summarize] panics. *)
Definition cookWriteSummary `{MapOrder} (w : writeWorkload)
  : option writeWorkloadSummary :=
  let ds := sort_Strings ((range (days w)).*1) in
  foldl (λ acc day,
           summary ← acc;
           r ← days w !! day;
           s ← summarize r;
           Some (summary ++ [s]))
        (Some []) ds.

(** The mix-in loop of [cookSummary], for one previously cooked workload. *)
Definition mix_in (summary : gmap string writeWorkloadSummary)
    (kv : string * writeWorkloadSummary) : gmap string writeWorkloadSummary :=
  match summary !! kv.1 with
  | None => <[kv.1 := kv.2]> summary
  | Some existing => <[kv.1 := sort_by_Date (existing ++ kv.2)]> summary
  end.

(** The map [cookSummary] renders: the new summaries, with the cooked ones
    mixed in. *)
Definition cookSummary_map `{MapOrder} (l : writeLoader)
  : option (gmap string writeWorkloadSummary) :=
  summary ←
    foldl (λ acc kv, m ← acc; s ← cookWriteSummary kv.2; Some (<[kv.1 := s]> m))
          (Some ∅) (range (workloads l));
  Some (foldl mix_in summary (range (cookedSummaries l))).

(** ** The summary directory *)

(** The files of the output directory, with the paths that cannot be read
    and those that cannot be created or written. *)
Record fileSystem := mkFS {
  fs_files : gmap string string;
  fs_unreadable : gset string;
  fs_unwritable : gset string;
}.

Inductive readResult :=
  | ReadNotExist
  | ReadFails (err : string)
  | ReadBytes (b : string).

(** [os.ReadFile]. *)
Definition ReadFile (fs : fileSystem) (path : string) : readResult :=
  if decide (path ∈ fs_unreadable fs) then ReadFails "read error"
  else match fs_files fs !! path with
       | None => ReadNotExist
       | Some b => ReadBytes b
       end.

(** [os.WriteFile], and [os.OpenFile] with [O_CREATE|O_TRUNC|O_WRONLY]
    followed by one [Write]. *)
Definition WriteFile (fs : fileSystem) (path b : string) : string + fileSystem :=
  if decide (path ∈ fs_unwritable fs) then inl "write error"
  else inr (mkFS (<[path := b]> (fs_files fs)) (fs_unreadable fs)
              (fs_unwritable fs)).

(** ** Load phase *)

(** The inner loop of [loadCooked]: every date of one workload's summary
    enters the cooked set. *)
Definition mark_cooked (c : gmap (string * string) bool)
    (kv : string * writeWorkloadSummary) : gmap (string * string) bool :=
  foldl (λ c runSummary, <[(kv.1, Date runSummary) := true]> c) c kv.2.

(** [(l *writeLoader) loadCooked]: the error, or the loader afterwards. *)
Definition loadCooked `{Collaborators, MapOrder} (l : writeLoader)
    (fs : fileSystem) : string + writeLoader :=
  match ReadFile fs (filepath_Join (summaryDir l) summaryFilename) with
  | ReadNotExist => inr l
  | ReadFails e => inl e
  | ReadBytes b =>
      match json_Unmarshal b with
      | inl e => inl e
      | inr summaries =>
          inr (mkLoader (dataDir l) (summaryDir l) (workloads l)
                 (foldl mark_cooked (cooked l) (range summaries))
                 summaries)
      end
  end.

(** ** Emitting *)

(** [(l *writeLoader) cookSummary]: [None] is a panic, [inl] the error of
    the write, [inr] the file system afterwards. *)
Definition cookSummary `{Collaborators, MapOrder} (l : writeLoader)
    (fs : fileSystem) : option (string + fileSystem) :=
  summary ← cookSummary_map l;
  let b := prettyJSON_summaries summary +:+ nl in
  Some (WriteFile fs (filepath_Join (summaryDir l) summaryFilename) b).

(** [outputWriteRunSummary]. *)
Definition outputWriteRunSummary `{Collaborators, MapOrder} (r : writeRun)
    (outputPath : string) (fs : fileSystem) : string + fileSystem :=
  WriteFile fs outputPath (formatSummaryJSON r +:+ nl).

(** The runs of the tree in the order the two nested [range] loops of
    [cookWriteRunSummaries] reach them. *)
Definition all_runs `{MapOrder} (l : writeLoader) : list writeRun :=
  kv ← range (workloads l); (range (days kv.2)).*2.

(** The body of the loops of [cookWriteRunSummaries] for one run, once an
    error has been met or not. *)
Definition write_run_step `{Collaborators, MapOrder} (l : writeLoader)
    (acc : option string * fileSystem) (r : writeRun)
  : option string * fileSystem :=
  match acc.1 with
  | Some e => acc
  | None =>
      let outputPath :=
        filepath_Join (summaryDir l) (writeRun_summaryFilename r) in
      match outputWriteRunSummary r outputPath acc.2 with
      | inl e => (Some e, acc.2)
      | inr fs' => (None, fs')
      end
  end.

(** [(l *writeLoader) cookWriteRunSummaries]: the first error stops the
    loops; the files written until then stay. *)
Definition cookWriteRunSummaries `{Collaborators, MapOrder} (l : writeLoader)
    (fs : fileSystem) : option string * fileSystem :=
  foldl (write_run_step l) (None, fs) (all_runs l).

(** How an invocation ends. *)
Inductive outcome :=
  | Done
  | Failed (err : string)
  | Panicked.

(** [parseWrite]: the outcome, the output directory afterwards and what
    was written to standard error. *)
Definition parseWrite `{Collaborators, MapOrder} (dataDir summaryDir : string)
    (t : dataTree) (fs : fileSystem) : outcome * fileSystem * list diag :=
  let l := newWriteLoader dataDir summaryDir in
  match loadCooked l fs with
  | inl e => (Failed e, fs, [])
  | inr l1 =>
      let '(l2, d, werr) := loadRaw l1 t in
      match werr with
      | Some e => (Failed e, fs, d)
      | None =>
          match cookSummary l2 fs with
          | None => (Panicked, fs, d)
          | Some (inl e) => (Failed e, fs, d)
          | Some (inr fs1) =>
              match cookWriteRunSummaries l2 fs1 with
              | (Some e, fs2) => (Failed e, fs2, d)
              | (None, fs2) => (Done, fs2, d)
              end
          end
      end
  end.

(** ** Vocabulary of the statements *)


(** Misclassified samples of the run at threshold [t]. *)
Definition misclass (r : rawWriteRun) (t : Z) : nat :=
  Split.misclassified (passing r) (failing r) t.






(** The representative throughput of a worker-run. *)
Definition split_of (raw : rawWriteRun) : Z := (opsPerSecSplit raw).1.

(** The write amplification of the last sample of a worker-run. *)
Definition final_writeAmp (raw : rawWriteRun) : float :=
  default 0%float (writeAmp <$> last (points raw)).

Definition sum_Z (l : list Z) : Z := foldr Z.add 0 l.

(** A floating point sum, accumulated from the left in list order. *)
Definition float_sum (l : list float) : float := foldl PrimFloat.add 0%float l.

(** The worker-runs of a run, without their keys. *)
Definition worker_runs (r : writeRun) : list rawWriteRun :=
  (map_to_list (rawRuns r)).*2.

(** A run with at least one worker-run, each with at least one sample. *)
Definition run_ok (r : writeRun) : Prop :=
  rawRuns r ≠ ∅ ∧ ∀ f raw, rawRuns r !! f = Some raw → points raw ≠ [].

Definition tree_ok (ws : gmap string writeWorkload) : Prop :=
  ∀ nm w day r, ws !! nm = Some w → days w !! day = Some r → run_ok r.

(** The aggregation trees [addRawRun] can build, starting from the empty
    tree of [newWriteLoader]. *)
Inductive built `{Collaborators} : writeLoader → Prop :=
  | built_new d s ck cs : built (mkLoader d s ∅ ck cs)
  | built_add l nm day path raw :
      built l → built (addRawRun l nm day path raw).1.

(** Every run sits under its own workload name and day. *)
Definition tree_keyed (ws : gmap string writeWorkload) : Prop :=
  ∀ nm w day r, ws !! nm = Some w → days w !! day = Some r →
    name r = nm ∧ date r = day.

(** A loop step that stores under the key of [kv] a value computed from
    what the map held there and from the value of [kv]. *)
Definition upsert {V W} (g : option W → V → W) (acc : gmap string W)
    (kv : string * V) : gmap string W :=
  <[kv.1 := g (acc !! kv.1) kv.2]> acc.

(** The entry of one worker-run in the per-run detail artifact. *)
Definition cooked_of (raw : rawWriteRun) : cookedWriteRun :=
  mkCooked (split_of raw) (formatCSV raw).

(** One CSV row per sample, each ended by a newline. *)
Definition rows_terminated (ps : list writePoint) : string :=
  String.concat "" ((λ p, formatCSV_point p +:+ nl) <$> ps).

(** The CSV rows joined by newlines ([strings.Join(rows, "\n")]). *)
Definition rows_joined (ps : list writePoint) : string :=
  String.concat nl (formatCSV_point <$> ps).

(** The [opsSec] values a per-run detail artifact holds, without keys. *)
Definition detail_opsSec (m : gmap string cookedWriteRun) : list Z :=
  c_OpsSec <$> (map_to_list m).*2.

(** A line carrying the record tag. *)
Definition is_record (line : string) : Prop :=
  String.prefix "BenchmarkRaw" line = true.

(** The scan of the line found all seven fields. *)
Definition scan_ok `{Collaborators} (line : string) : Prop :=
  sc_err (Sscanf line) = None ∧ sc_n (Sscanf line) = 7.

(** The scan of the line reported an error or a wrong field count. *)
Definition scan_fails `{Collaborators} (line : string) : Prop :=
  sc_err (Sscanf line) ≠ None ∨ sc_n (Sscanf line) ≠ 7.

(** The sample of a line whose scan and whose duration both convert. *)
Definition sample_of `{Collaborators} (line : string) : option writePoint :=
  match ParseDuration (sc_elapsed (Sscanf line)) with
  | inl _ => None
  | inr d => Some (with_elapsedSecs (sc_point (Sscanf line))
                     (int_of_float (Seconds d)))
  end.

(** A relative path of the shape [day/pebble/write/name/run/file]. *)
Definition write_path (pathRel day : string) : Prop :=
  let parts := split_on PathSeparator pathRel in
  (6 ≤ length parts)%nat ∧ parts !! 2%nat = Some "write" ∧
  parts !! 0%nat = Some day.

(** The name of the first line of [lines] that converts completely. *)
Definition first_well_formed_name `{Collaborators} (lines : list string)
  : option string :=
  (λ line, sc_name (Sscanf line)) <$>
  head (filter (λ line, String.prefix "BenchmarkRaw" line = true ∧
                        sc_err (Sscanf line) = None ∧ sc_n (Sscanf line) = 7 ∧
                        is_Some (sample_of line)) lines).

(** The name of the first record line of [lines] whose scan finds all
    seven fields (its duration may still fail to convert). *)
Definition first_scanned_name `{Collaborators} (lines : list string)
  : option string :=
  (λ line, sc_name (Sscanf line)) <$>
  head (filter (λ line, String.prefix "BenchmarkRaw" line = true ∧
                        sc_err (Sscanf line) = None ∧ sc_n (Sscanf line) = 7)
          lines).

(** A workload whose runs are all well formed and sit under their day. *)
Definition workload_ok (w : writeWorkload) : Prop :=
  ∀ day r, days w !! day = Some r → run_ok r ∧ date r = day.

(** What the mix-in loop stores for a cooked summary [ck], given what the
    new data put under the same name. *)
Definition mixed (existing : option writeWorkloadSummary)
    (ck : writeWorkloadSummary) : writeWorkloadSummary :=
  match existing with
  | None => ck
  | Some new => sort_by_Date (new ++ ck)
  end.

(** The dates of a summary sequence, in order. *)
Definition dates (s : writeWorkloadSummary) : list string := Date <$> s.

(** The new summaries of a workload (empty when a [summarize] panics). *)
Definition new_of `{MapOrder} (w : writeWorkload) : writeWorkloadSummary :=
  default [] (cookWriteSummary w).

(** Every pair cooked in [ck] is cooked in [ck']. *)
Definition cooked_sub (ck ck' : gmap (string * string) bool) : Prop :=
  ∀ k, is_cooked ck k = true → is_cooked ck' k = true.

(** The tree holds a run for the workload [nm] on [day]. *)
Definition has_day (l : writeLoader) (nm day : string) : Prop :=
  ∃ w, workloads l !! nm = Some w ∧ is_Some (days w !! day).

(** The loader at the end of the ingestion, when the load phase succeeds. *)
Definition loaded `{Collaborators, MapOrder} (dataDir summaryDir : string)
    (t : dataTree) (fs : fileSystem) : option writeLoader :=
  match loadCooked (newWriteLoader dataDir summaryDir) fs with
  | inl _ => None
  | inr l1 => Some (loadRaw l1 t).1.1
  end.

(** Every pair of the cooked set comes from a cooked summary. *)
Definition cooked_matches (l : writeLoader) : Prop :=
  ∀ nm d, is_cooked (cooked l) (nm, d) = true →
          ∃ ws, cookedSummaries l !! nm = Some ws ∧ d ∈ dates ws.

(** ** Vocabulary of the further properties *)

(** The worker-run [raw] is stored for the file [path] in the run of the
    workload [nm] on [day]. *)
Definition stored (l : writeLoader) (nm day path : string) (raw : rawWriteRun)
  : Prop :=
  ∃ w r, workloads l !! nm = Some w ∧ days w !! day = Some r ∧
         rawRuns r !! path = Some raw.

(** The sample a line contributes to its file: the converted point of a
    record line whose scan found seven fields and whose duration parses. *)
Definition line_sample `{Collaborators} (line : string) : option writePoint :=
  if decide (String.prefix "BenchmarkRaw" line = true ∧
             sc_err (Sscanf line) = None ∧ sc_n (Sscanf line) = 7)
  then sample_of line else None.

(** The samples of a file, in line order. *)
Definition file_samples `{Collaborators} (lines : list string) : list writePoint :=
  omap line_sample lines.

(** The day a relative path starts with. *)
Definition path_day (pathRel : string) : string :=
  default "" (split_on PathSeparator pathRel !! 0%nat).

(** The relative path has the shape [walkFn] accepts. *)
Definition accepted_path (pathRel : string) : Prop :=
  (6 ≤ length (split_on PathSeparator pathRel))%nat ∧
  split_on PathSeparator pathRel !! 2%nat = Some "write".

(** The worker-run [raw] stored for [path] is what one of the files
    [files] with that relative path yields. *)
Definition from_files `{Collaborators} (files : list rawFile) (path : string)
    (raw : rawWriteRun) : Prop :=
  ∃ f lines, f ∈ files ∧ f_pathRel f = path ∧ f_body f = Body lines ∧
             raw = mkRaw (file_samples lines) 0.

(** What holds of a run of the tree after the files [files] were walked. *)
Definition run_inv `{Collaborators} (files : list rawFile)
    (ck : gmap (string * string) bool) (nm day : string) (r : writeRun) : Prop :=
  name r = nm ∧ date r = day ∧ is_cooked ck (nm, day) = false ∧
  (∃ p0, is_Some (rawRuns r !! p0) ∧ dir r = filepath_Dir p0) ∧
  ∀ p raw, rawRuns r !! p = Some raw →
    points raw ≠ [] ∧ accepted_path p ∧ path_day p = day ∧
    from_files files p raw.

Definition tree_inv `{Collaborators} (files : list rawFile) (l : writeLoader)
  : Prop :=
  ∀ nm w day r, workloads l !! nm = Some w → days w !! day = Some r →
    run_inv files (cooked l) nm day r.

(** A string with every path separator replaced by a dash. *)
Fixpoint dash_for_sep (s : string) : string :=
  match s with
  | EmptyString => EmptyString
  | String c s' =>
      String (if decide (c = PathSeparator) then "-"%char else c)
        (dash_for_sep s')
  end.

(** The characters of a string. *)
Fixpoint chars (s : string) : list ascii :=
  match s with
  | EmptyString => []
  | String c s' => c :: chars s'
  end.

(** The path of the per-run file of a run. *)
Definition run_path `{Collaborators} (l : writeLoader) (r : writeRun) : string :=
  filepath_Join (summaryDir l) (writeRun_summaryFilename r).

(** The newline and the comma, as characters. *)
Definition nl_char : ascii := Ascii.ascii_of_nat 10.
Definition comma_char : ascii := ","%char.

(** A string that holds neither a comma nor a newline. *)
Definition plain (s : string) : Prop :=
  Forall (λ c, c ≠ comma_char ∧ c ≠ nl_char) (chars s).

(** The six fields of the CSV row of a point. *)
Definition csv_fields (p : writePoint) : list string :=
  [fmt_int (elapsedSecs p); fmt_int (opsSec p); fmt_bool (passed p);
   fmt_int (size p); fmt_int (levels p); fmt_f2 (writeAmp p)].

(** ** Example data *)

Definition pt (secs ops : Z) (ok : bool) (wa : float) : writePoint :=
  mkPoint secs ops ok 1024 3 wa.

(** Passing at 100, 110 and 120 ops/sec, failing at 90 and 95. *)
Definition mixed_run : rawWriteRun :=
  mkRaw [pt 1 90 false 1; pt 2 100 true 1; pt 3 95 false 1;
         pt 4 110 true 1; pt 5 120 true 2] 0.

(** Every sample passes, at 50 and 60 ops/sec. *)
Definition all_pass_run : rawWriteRun :=
  mkRaw [pt 1 50 true 2; pt 2 60 true 2] 0.

(** Every sample fails, at 50 and 60 ops/sec. *)
Definition all_fail_run : rawWriteRun :=
  mkRaw [pt 1 50 false 2; pt 2 60 false 2] 0.

(** ** A small implementation of the collaborators

    Enough of a scanner, a duration parser, path functions and a renderer
    to run the pipeline on examples.  The scanner accepts the record
    format with decimal fields separated by white space; it stands for
    [fmt.Sscanf] in the examples only. *)

Definition digit_of (c : ascii) : option Z :=
  let n := Z.of_N (N_of_ascii c) in
  if decide (48 ≤ n ≤ 57) then Some (n - 48) else None.

Fixpoint parse_digits (acc : Z) (s : string) : option Z :=
  match s with
  | EmptyString => Some acc
  | String c s' => d ← digit_of c; parse_digits (10 * acc + d) s'
  end.

Definition parse_nat (s : string) : option Z :=
  if decide (s = "") then None else parse_digits 0 s.

Definition parse_int (s : string) : option Z :=
  match s with
  | String "-" s' => Z.opp <$> parse_nat s'
  | _ => parse_nat s
  end.

Definition parse_bool (s : string) : option bool :=
  if decide (s = "true") then Some true
  else if decide (s = "false") then Some false
  else None.

Definition parse_float (s : string) : option float :=
  match split_on "." s with
  | [i] => float_of_int <$> parse_int i
  | [i; f] =>
      n ← parse_int (i +:+ f);
      Some (PrimFloat.div (float_of_int n)
              (float_of_int (10 ^ Z.of_nat (String.length f))))
  | _ => None
  end.

Definition scan_failed (n : Z) : scanned :=
  mkScanned n (Some "input does not match format") ""
    (mkPoint 0 0 false 0 0 0%float) "".

Definition demo_Sscanf (line : string) : scanned :=
  match String.words line with
  | [tag; ops; kw1; ok; kw2; el; kw3; sz; kw4; lv; kw5; wa; kw6] =>
      if decide ([kw1; kw2; kw3; kw4; kw5; kw6] =
                 ["ops/sec"; "pass"; "elapsed"; "bytes"; "levels"; "writeAmp"])
      then
        match parse_int ops, parse_bool ok, parse_nat sz, parse_int lv,
              parse_float wa with
        | Some o, Some b, Some s, Some l, Some w =>
            mkScanned 7 None
              (String.substring 12 (String.length tag - 12) tag)
              (mkPoint 0 o b s l w) el
        | _, _, _, _, _ => scan_failed 1
        end
      else scan_failed 1
  | _ => scan_failed 0
  end.

Definition demo_ParseDuration (s : string) : string + Z :=
  match String.rev s with
  | String "s" d =>
      match parse_int (String.rev d) with
      | Some n => inr (n * 1000000000)
      | None => inl "time: invalid duration"
      end
  | _ => inl "time: missing unit in duration"
  end.

Definition demo_Dir (p : string) : string :=
  String.concat "/" (removelast (split_on "/" p)).

Definition demo_Join (d n : string) : string := d +:+ "/" +:+ n.

Definition render_summary (s : writeRunSummary) : string :=
  Name s +:+ "," +:+ Date s +:+ "," +:+ fmt_int (OpsSec s) +:+ "," +:+
  fmt_f2 (WriteAmp s) +:+ "," +:+ SummaryPath s +:+ ";".

Definition demo_prettyJSON_summaries (m : gmap string writeWorkloadSummary)
  : string :=
  String.concat " "
    ((λ kv, kv.1 +:+ ":" +:+ String.concat "" (render_summary <$> kv.2))
       <$> map_to_list m).

Definition demo_prettyJSON_run (m : gmap string cookedWriteRun) : string :=
  String.concat " "
    ((λ kv, kv.1 +:+ ":" +:+ fmt_int (c_OpsSec kv.2) +:+ ":" +:+ c_Raw kv.2)
       <$> map_to_list m).

(** A decoder that knows the documents listed in [docs] and rejects every
    other input. *)
Definition demo_Unmarshal (docs : list (string * gmap string writeWorkloadSummary))
    (b : string) : string + gmap string writeWorkloadSummary :=
  match list_find (λ d, d.1 = b) docs with
  | Some (_, d) => inr d.2
  | None => inl "invalid character"
  end.

Definition demo (docs : list (string * gmap string writeWorkloadSummary))
  : Collaborators :=
  {| Sscanf := demo_Sscanf;
     ParseDuration := demo_ParseDuration;
     filepath_Dir := demo_Dir;
     filepath_Join := demo_Join;
     prettyJSON_summaries := demo_prettyJSON_summaries;
     prettyJSON_run := demo_prettyJSON_run;
     json_Unmarshal := demo_Unmarshal docs |}.

(** The enumeration [map_to_list] gives. *)
Definition canonical_order : MapOrder :=
  {| range := λ V m, map_to_list m;
     range_perm := λ V m, reflexivity (map_to_list m) |}.

(** The opposite enumeration. *)
Definition reverse_order : MapOrder :=
  {| range := λ V m, reverse (map_to_list m);
     range_perm := λ V m, reverse_Permutation (map_to_list m) |}.

(** Two workers on one day: splits 1000 and 1200, final write
    amplifications 2.0 and 3.0. *)
Definition two_worker_run : writeRun :=
  mkRun "values=1024" "20230101" "20230101/pebble/write/values=1024/1"
    (<["20230101/pebble/write/values=1024/1/a.gz" := mkRaw [pt 5 1000 true 2] 0]>
       (<["20230101/pebble/write/values=1024/1/b.gz" := mkRaw [pt 5 1200 true 3] 0]> ∅)).

(** A tree with one run of one worker, added through [addRawRun]. *)
Definition one_file_loader : writeLoader :=
  (@addRawRun (demo []) (newWriteLoader "data" "out") "values=1024" "20230101"
     "20230101/pebble/write/values=1024/1/a.gz" (mkRaw [pt 5 1000 true 2] 0)).1.

Definition one_file_run : writeRun :=
  mkRun "values=1024" "20230101" "20230101/pebble/write/values=1024/1"
    {["20230101/pebble/write/values=1024/1/a.gz" := mkRaw [pt 5 1000 true 2] 0]}.

Definition one_file_workload : writeWorkload :=
  mkWorkload {["20230101" := one_file_run]}.

(** Example lines. *)
Definition line_good : string :=
  "BenchmarkRawvalues=1024 1000 ops/sec true pass 5s elapsed 1024 bytes 3 levels 2.00 writeAmp".
Definition line_bad_ops : string :=
  "BenchmarkRawvalues=1024 fast ops/sec true pass 6s elapsed 1024 bytes 3 levels 2.00 writeAmp".
Definition line_noise : string := "compaction finished".
Definition line_bad_duration : string :=
  "BenchmarkRawvalues=64 900 ops/sec true pass soon elapsed 64 bytes 3 levels 1.50 writeAmp".
Definition line_other_name : string :=
  "BenchmarkRawvalues=256 1100 ops/sec false pass 7s elapsed 256 bytes 3 levels 2.25 writeAmp".

Definition example_path : string := "20230101/pebble/write/values=1024/1/a.gz".

Definition example_file (lines : list string) : rawFile :=
  mkFile ("data/" +:+ example_path) example_path (Body lines).

(** An empty output directory, and one whose top-level summary is not
    JSON. *)
Definition empty_fs : fileSystem := mkFS ∅ ∅ ∅.

Definition garbled_fs : fileSystem :=
  mkFS {["out/summary.json" := "{ not json"]} ∅ ∅.

(** Previously cooked summaries for two days. *)
Definition cooked_0101 : writeRunSummary :=
  mkSummary "values=1024" "2023-01-01" 900 2%float "2023-01-01-summary.json".
Definition cooked_0102 : writeRunSummary :=
  mkSummary "values=1024" "2023-01-02" 950 2%float "2023-01-02-summary.json".
Definition cooked_0103 : writeRunSummary :=
  mkSummary "values=1024" "2023-01-03" 990 2%float "2023-01-03-summary.json".

Definition run_0102 : writeRun :=
  mkRun "values=1024" "2023-01-02" "2023-01-02/pebble/write/values=1024/1"
    {["2023-01-02/pebble/write/values=1024/1/a.gz" := mkRaw [pt 5 1000 true 2] 0]}.

Definition tree_0102 : gmap string writeWorkload :=
  {["values=1024" := mkWorkload {["2023-01-02" := run_0102]}]}.

(** New data for 2023-01-02, cooked data for 2023-01-01 and 2023-01-03. *)
Definition gap_loader : writeLoader :=
  mkLoader "data" "out" tree_0102 ∅
    {["values=1024" := [cooked_0101; cooked_0103]]}.

(** New data for 2023-01-02 and cooked data for the same day. *)
Definition clash_loader : writeLoader :=
  mkLoader "data" "out" tree_0102 ∅
    {["values=1024" := [cooked_0101; cooked_0102]]}.

(** The data directory of the examples: one file, two record lines of
    which one is malformed, and a line of noise. *)
Definition example_tree : dataTree :=
  mkTree [example_file [line_noise; line_good; line_bad_ops]] None.

(** The summary a first run over [example_tree] writes, and its bytes. *)
Definition first_summary : gmap string writeWorkloadSummary :=
  {["values=1024" :=
      [mkSummary "values=1024" "20230101" 1000 2%float
         "20230101-pebble-write-values=1024-1-summary.json"]]}.

Definition first_doc : string :=
  demo_prettyJSON_summaries first_summary +:+ nl.

(** The collaborators of the examples, able to decode [first_doc]. *)
Definition demo1 : Collaborators := demo [(first_doc, first_summary)].

(** The first run over [example_tree], into an empty output directory. *)
Definition first_run : outcome * fileSystem * list diag :=
  @parseWrite demo1 canonical_order "data" "out" example_tree empty_fs.

Definition first_loader : writeLoader :=
  default (newWriteLoader "" "")
    (@loaded demo1 canonical_order "data" "out" example_tree empty_fs).

Definition first_tree_run : writeRun :=
  mkRun "values=1024" "20230101" "20230101/pebble/write/values=1024/1"
    {[example_path := mkRaw [mkPoint 5 1000 true 1024 3 2%float] 0]}.

(** Two workers whose splits, 1000 and 1001, have an odd sum. *)
Definition odd_sum_run : writeRun :=
  mkRun "values=1024" "20230101" "20230101/pebble/write/values=1024/1"
    (<["20230101/pebble/write/values=1024/1/a.gz" := mkRaw [pt 5 1000 true 2] 0]>
       (<["20230101/pebble/write/values=1024/1/b.gz" := mkRaw [pt 5 1001 true 2.25] 0]> ∅)).

(** ** Further example data *)

(** Three workers whose final write amplifications are 1.779, 1.636 and
    1.91. *)
Definition three_worker_run : writeRun :=
  mkRun "values=1024" "20230101" "20230101/pebble/write/values=1024/1"
    (<["a" := mkRaw [pt 5 1000 true 1.636] 0]>
       (<["b" := mkRaw [pt 5 1000 true 1.779] 0]>
          (<["c" := mkRaw [pt 5 1000 true 1.91] 0]> ∅))).

(** A run without worker-runs, and a run whose only worker-run has no
    sample; neither can be built by [addRawRun]. *)
Definition no_worker_run : writeRun :=
  mkRun "values=1024" "20230101" "20230101/pebble/write/values=1024/1" ∅.


(** A second day of data, walked together with the first. *)
Definition second_path : string := "20230102/pebble/write/values=1024/1/a.gz".

Definition second_tree : dataTree :=
  mkTree [example_file [line_noise; line_good; line_bad_ops];
          mkFile ("data/" +:+ second_path) second_path
            (Body [line_good; line_other_name])] None.

(** The loader of a run over [second_tree] that starts from the output
    directory the first run left. *)
Definition second_loader : writeLoader :=
  default (newWriteLoader "" "")
    (@loaded demo1 canonical_order "data" "out" second_tree first_run.1.2).

(** An output directory in which the per-run file of the examples cannot
    be created. *)
Definition locked_fs : fileSystem :=
  mkFS ∅ ∅ {["out/20230101-pebble-write-values=1024-1-summary.json"]}.



(** * Properties *)

(** ** Machine integers *)

Lemma wrap64_range z : int64_range (wrap64 z).
Proof. unfold int64_range, wrap64. pose proof (Z.mod_pos_bound (z + 2 ^ 63) (2 ^ 64)). lia. Qed.

Lemma wrap64_small z : int64_range z → wrap64 z = z.
Proof. unfold int64_range, wrap64. intros Hz. rewrite Z.mod_small; lia. Qed.

Lemma wrap64_add_l a b : wrap64 (wrap64 a + b) = wrap64 (a + b).
Proof.
  unfold wrap64.
  replace ((a + 2 ^ 63) `mod` 2 ^ 64 - 2 ^ 63 + b + 2 ^ 63)
    with ((a + 2 ^ 63) `mod` 2 ^ 64 + b) by lia.
  rewrite Zplus_mod_idemp_l. do 2 f_equal. lia.
Qed.

(** ** The reducer *)

Lemma partition_points_acc ps a b :
  foldl partition_step (a, b) ps =
  (a ++ (opsSec <$> filter (λ p, passed p = true) ps),
   b ++ (opsSec <$> filter (λ p, passed p = false) ps)).
Proof.
  revert a b. induction ps as [|p ps IH]; intros a b; simpl.
  - by rewrite !app_nil_r.
  - unfold partition_step at 2. rewrite !filter_cons.
    destruct (passed p); simpl; rewrite IH; repeat case_decide; try done;
      by rewrite ?fmap_cons, <- ?app_assoc.
Qed.

Lemma partition_points_spec r :
  partition_points (points r) = (passing r, failing r).
Proof. unfold partition_points. by rewrite partition_points_acc. Qed.

Lemma opsPerSecSplit_fresh r :
  split r ≤ 0 →
  (opsPerSecSplit r).1 = Split.findOptimalSplit (passing r) (failing r).
Proof.
  intros Hs. unfold opsPerSecSplit.
  destruct (decide (0 < split r)); [lia|].
  by rewrite partition_points_spec.
Qed.










Lemma filter_ge_max (t : Z) (l : list Z) :
  (∀ x, x ∈ l → x < t) → filter (λ f, t ≤ f) l = [].
Proof.
  induction l as [|y l IH]; intros Hall; [done|].
  rewrite filter_cons. destruct (decide (t ≤ y)) as [Hy|_].
  - assert (y < t) by (apply Hall; left). lia.
  - apply IH. intros x Hx. apply Hall. by right.
Qed.




(** The examples of the specification: a clean separation at 100, an
    all-pass run at its minimum, an all-fail run one above its maximum. *)
Lemma opsPerSecSplit_examples :
  (opsPerSecSplit mixed_run).1 = 100 ∧
  (opsPerSecSplit all_pass_run).1 = 50 ∧
  (opsPerSecSplit all_fail_run).1 = 61 ∧
  misclass mixed_run 100 = 0%nat.
Proof. by repeat split. Qed.

(** Calling the reducer again on the receiver it left behind gives the
    same split: the memo and the recomputation agree. *)
Lemma opsPerSecSplit_idem (r : rawWriteRun) :
  split r ≤ 0 →
  (opsPerSecSplit (opsPerSecSplit r).2).1 = (opsPerSecSplit r).1.
Proof.
  intros Hs. unfold opsPerSecSplit at 2 3.
  destruct (decide (0 < split r)); [lia|].
  rewrite partition_points_spec. simpl.
  unfold opsPerSecSplit. simpl.
  destruct (decide _); [done|]. by rewrite partition_points_spec.
Qed.

(** ** Summaries of a run *)

Lemma sum_Z_perm (l1 l2 : list Z) : l1 ≡ₚ l2 → sum_Z l1 = sum_Z l2.
Proof. unfold sum_Z. induction 1; simpl; lia. Qed.

Lemma foldl_int_add (a : Z) (ss : list Z) :
  wrap64 a = a → foldl int_add a ss = wrap64 (a + sum_Z ss).
Proof.
  revert a. induction ss as [|s ss IH]; intros a Ha; simpl.
  - by rewrite Z.add_0_r.
  - rewrite IH.
    + unfold int_add. rewrite wrap64_add_l. f_equal. lia.
    + unfold int_add. apply wrap64_small, wrap64_range.
Qed.

Lemma writeAmp_final_last (raw : rawWriteRun) :
  writeAmp_final raw = writeAmp <$> last (points raw).
Proof.
  unfold writeAmp_final. rewrite last_lookup. do 2 f_equal. lia.
Qed.

Lemma writeAmp_final_Some (raw : rawWriteRun) :
  points raw ≠ [] → writeAmp_final raw = Some (final_writeAmp raw).
Proof.
  intros Hne. unfold final_writeAmp. rewrite writeAmp_final_last.
  destruct (last (points raw)) eqn:Hl; [done|].
  by apply last_None in Hl.
Qed.

Lemma writeAmp_final_None (raw : rawWriteRun) :
  points raw = [] → writeAmp_final raw = None.
Proof. intros Hp. unfold writeAmp_final. by rewrite Hp. Qed.

(** The loop of [summarize] on worker-runs that all have a sample. *)
Lemma summarize_loop (kvs : list (string * rawWriteRun)) (a : Z) (b : float) :
  Forall (λ kv, points kv.2 ≠ []) kvs →
  foldl summarize_step (Some (a, b)) kvs =
  Some (foldl int_add a (split_of <$> kvs.*2),
        foldl PrimFloat.add b (final_writeAmp <$> kvs.*2)).
Proof.
  revert a b. induction kvs as [|kv kvs IH]; intros a b Hall; [done|].
  apply Forall_cons in Hall as [Hkv Hall]. simpl.
  rewrite (writeAmp_final_Some _ Hkv). simpl. by rewrite IH.
Qed.

Lemma range_Forall `{MapOrder} {V} (P : string → V → Prop) (m : gmap string V) :
  (∀ k v, m !! k = Some v → P k v) → Forall (λ kv, P kv.1 kv.2) (range m).
Proof.
  intros HP. apply Forall_forall. intros [k v] Hin.
  rewrite range_perm in Hin. apply elem_of_map_to_list in Hin. by apply HP.
Qed.

Lemma range_length `{MapOrder} {V} (m : gmap string V) :
  length (range m) = base.size m.
Proof. rewrite range_perm. by rewrite length_map_to_list. Qed.

Lemma range_values_perm `{MapOrder} {V} (m : gmap string V) :
  (range m).*2 ≡ₚ (map_to_list m).*2.
Proof. by rewrite range_perm. Qed.

(** [summarize] in closed form. *)
Lemma summarize_ok `{MapOrder} (r : writeRun) :
  run_ok r →
  summarize r =
  Some (mkSummary (name r) (date r)
          (wrap64 (sum_Z (split_of <$> worker_runs r))
             `quot` Z.of_nat (base.size (rawRuns r)))
          (PrimFloat.div
             (math_Round
                (PrimFloat.div
                   (PrimFloat.mul 100%float
                      (float_sum (final_writeAmp <$> (range (rawRuns r)).*2)))
                   (float_of_int (Z.of_nat (base.size (rawRuns r))))))
             100%float)
          (writeRun_summaryFilename r)).
Proof.
  intros [Hne Hpts]. unfold summarize.
  rewrite summarize_loop; [|by apply (range_Forall (λ _ raw, points raw ≠ []))].
  simpl. destruct (decide _) as [Hz|_].
  - exfalso. apply Hne. apply map_size_empty_iff. lia.
  - rewrite foldl_int_add by done. simpl.
    unfold worker_runs, float_sum.
    by rewrite (sum_Z_perm _ _ (fmap_Permutation split_of _ _ (range_values_perm _))).
Qed.

Lemma run_ok_decide (r : writeRun) :
  bool_decide (rawRuns r ≠ ∅ ∧
               map_Forall (λ _ raw, points raw ≠ []) (rawRuns r)) = true →
  run_ok r.
Proof. intros Hb. by apply bool_decide_eq_true in Hb. Qed.



(** The division truncates: splits 1000 and 1001 average to 1000, and write
    amplifications 2.0 and 2.25 to 2.13 (2.125 rounded half away from
    zero). *)
Example summarize_truncates :
  (λ s, (OpsSec s, fmt_f2 (WriteAmp s))) <$> @summarize canonical_order odd_sum_run
  = Some (1000, "2.13").
Proof. vm_compute. reflexivity. Qed.

(** ** The aggregation tree *)

Section Tree.
Context `{Collaborators}.

Lemma addRawRun_empty (l : writeLoader) (nm day path : string) (raw : rawWriteRun) :
  points raw = [] → addRawRun l nm day path raw = (l, []).
Proof. intros Hp. unfold addRawRun. by rewrite Hp. Qed.

(** The run a workload name and a day lead to after [addRawRun] stored a
    non-empty worker-run. *)
Lemma addRawRun_lookup (l : writeLoader) (nm day path : string) (raw : rawWriteRun)
    (nm' day' : string) (w' : writeWorkload) (r' : writeRun) :
  points raw ≠ [] →
  workloads (addRawRun l nm day path raw).1 !! nm' = Some w' →
  days w' !! day' = Some r' →
  (nm' = nm ∧ day' = day ∧
   ∃ r0, r' = mkRun (name r0) (date r0) (dir r0) (<[path := raw]> (rawRuns r0)) ∧
         ((∃ w, workloads l !! nm = Some w ∧ days w !! day = Some r0) ∨
          r0 = mkRun nm day (filepath_Dir path) ∅)) ∨
  (∃ w, workloads l !! nm' = Some w ∧ days w !! day' = Some r').
Proof.
  intros Hne. unfold addRawRun.
  destruct (decide (length (points raw) = 0%nat)) as [Hz|_].
  { by apply length_zero_iff_nil in Hz. }
  simpl. destruct (decide (nm' = nm)) as [->|Hnm].
  - rewrite lookup_insert_eq. intros [= <-]. simpl.
    destruct (decide (day' = day)) as [->|Hday].
    + rewrite lookup_insert_eq. intros [= <-]. left. do 2 (split; [done|]).
      eexists. split; [done|].
      destruct (workloads l !! nm) as [w|] eqn:Hw; simpl.
      * destruct (days w !! day) as [r0|] eqn:Hr; simpl; [left; eauto|by right].
      * by right.
    + rewrite lookup_insert_ne by done. intros Hr. right.
      destruct (workloads l !! nm) as [w|] eqn:Hw; simpl in Hr; [eauto|].
      by rewrite lookup_empty in Hr.
  - rewrite lookup_insert_ne by done. intros Hw Hr. right. eauto.
Qed.

Lemma addRawRun_tree_ok (l : writeLoader) (nm day path : string) (raw : rawWriteRun) :
  tree_ok (workloads l) → tree_ok (workloads (addRawRun l nm day path raw).1).
Proof.
  intros Hok. destruct (decide (points raw = [])) as [Hp|Hp].
  { by rewrite addRawRun_empty. }
  intros nm' w' day' r' Hw' Hr'.
  destruct (addRawRun_lookup _ _ _ _ _ _ _ _ _ Hp Hw' Hr')
    as [(-> & -> & r0 & -> & Hr0)|(w & Hw & Hr)]; [|by eapply Hok].
  split; simpl; [apply insert_non_empty|].
  intros f raw' Hf. destruct (decide (f = path)) as [->|Hne].
  - rewrite lookup_insert_eq in Hf. by injection Hf as <-.
  - rewrite lookup_insert_ne in Hf by done.
    destruct Hr0 as [(w & Hw & Hr)| ->].
    + by eapply (Hok _ _ _ _ Hw Hr).
    + simpl in Hf. by rewrite lookup_empty in Hf.
Qed.

Lemma addRawRun_tree_keyed (l : writeLoader) (nm day path : string) (raw : rawWriteRun) :
  tree_keyed (workloads l) → tree_keyed (workloads (addRawRun l nm day path raw).1).
Proof.
  intros Hok. destruct (decide (points raw = [])) as [Hp|Hp].
  { by rewrite addRawRun_empty. }
  intros nm' w' day' r' Hw' Hr'.
  destruct (addRawRun_lookup _ _ _ _ _ _ _ _ _ Hp Hw' Hr')
    as [(-> & -> & r0 & -> & Hr0)|(w & Hw & Hr)]; [|by eapply Hok].
  simpl. destruct Hr0 as [(w & Hw & Hr)| ->]; [by eapply Hok|done].
Qed.

Lemma built_tree_ok (l : writeLoader) : built l → tree_ok (workloads l).
Proof.
  induction 1 as [|l nm day path raw _ IH]; simpl.
  - intros nm w day r Hw. by rewrite lookup_empty in Hw.
  - by apply addRawRun_tree_ok.
Qed.

Lemma built_tree_keyed (l : writeLoader) : built l → tree_keyed (workloads l).
Proof.
  induction 1 as [|l nm day path raw _ IH]; simpl.
  - intros nm w day r Hw. by rewrite lookup_empty in Hw.
  - by apply addRawRun_tree_keyed.
Qed.

(** C8.  [addRawRun] drops a worker-run without samples silently, so in
    every tree it builds each run has at least one worker-run and each
    worker-run at least one sample; the last-sample access of [writeAmp]
    and the division of [summarize] therefore succeed on every run. *)
Theorem tree_never_faults `{MapOrder} (l : writeLoader) :
  built l →
  (∀ nm day path raw,
     points raw = [] → addRawRun l nm day path raw = (l, [])) ∧
  ∀ nm w day r,
    workloads l !! nm = Some w → days w !! day = Some r →
    rawRuns r ≠ ∅ ∧
    (∀ f raw, rawRuns r !! f = Some raw →
       points raw ≠ [] ∧ is_Some (writeAmp_final raw)) ∧
    is_Some (summarize r).
Proof.
  intros Hb. split; [intros; by apply addRawRun_empty|].
  intros nm w day r Hw Hr.
  pose proof (built_tree_ok l Hb nm w day r Hw Hr) as Hok.
  split; [apply Hok|]. split.
  - intros f raw Hf. destruct Hok as [_ Hpts].
    split; [by eapply Hpts|].
    rewrite writeAmp_final_Some; [done|by eapply Hpts].
  - by rewrite summarize_ok.
Qed.

End Tree.

Lemma tree_never_faults_witness :
  workloads one_file_loader !! "values=1024" = Some one_file_workload ∧
  days one_file_workload !! "20230101" = Some one_file_run ∧
  rawRuns one_file_run ≠ ∅ ∧ is_Some (@summarize canonical_order one_file_run).
Proof.
  assert (Hw : workloads one_file_loader !! "values=1024" = Some one_file_workload)
    by (vm_compute; reflexivity).
  assert (Hr : days one_file_workload !! "20230101" = Some one_file_run)
    by (vm_compute; reflexivity).
  do 2 (split; [assumption|]).
  destruct (@tree_never_faults (demo []) canonical_order one_file_loader) as [_ Hall].
  { apply built_add, built_new. }
  destruct (Hall _ _ _ _ Hw Hr) as (Hne & _ & Hs).
  split; [exact Hne|exact Hs].
Defined.

(** ** Loops over maps *)

Lemma upsert_notin {V W} (g : option W → V → W) (kvs : list (string * V))
    (acc : gmap string W) (k : string) :
  k ∉ kvs.*1 → foldl (upsert g) acc kvs !! k = acc !! k.
Proof.
  revert acc. induction kvs as [|[k' v'] kvs IH]; intros acc Hk; [done|].
  simpl in *. apply not_elem_of_cons in Hk as [Hne Hk].
  rewrite IH by done. unfold upsert. simpl. by rewrite lookup_insert_ne.
Qed.

Lemma upsert_in {V W} (g : option W → V → W) (kvs : list (string * V))
    (acc : gmap string W) (k : string) (v : V) :
  NoDup kvs.*1 → (k, v) ∈ kvs →
  foldl (upsert g) acc kvs !! k = Some (g (acc !! k) v).
Proof.
  revert acc. induction kvs as [|[k' v'] kvs IH]; intros acc Hnd Hin.
  { by apply elem_of_nil in Hin. }
  simpl in *. apply NoDup_cons in Hnd as [Hk' Hnd].
  apply elem_of_cons in Hin as [[= -> ->]|Hin].
  - rewrite upsert_notin by done. unfold upsert. simpl. by rewrite lookup_insert_eq.
  - rewrite IH by done. unfold upsert. simpl.
    rewrite lookup_insert_ne; [done|]. intros ->. apply Hk'.
    apply list_elem_of_fmap. by exists (k, v).
Qed.

Lemma range_NoDup `{MapOrder} {V} (m : gmap string V) : NoDup (range m).*1.
Proof. rewrite range_perm. apply NoDup_fst_map_to_list. Qed.

Lemma range_elem_of `{MapOrder} {V} (m : gmap string V) (k : string) (v : V) :
  (k, v) ∈ range m ↔ m !! k = Some v.
Proof. rewrite range_perm. apply elem_of_map_to_list. Qed.

Lemma range_notin `{MapOrder} {V} (m : gmap string V) (k : string) :
  m !! k = None → k ∉ (range m).*1.
Proof.
  intros Hk Hin. apply list_elem_of_fmap in Hin as ([k' v] & -> & Hin).
  apply range_elem_of in Hin. simpl in Hk. congruence.
Qed.

(** A loop over a map that upserts under each key, in closed form. *)
Lemma upsert_range_lookup `{MapOrder} {V W} (g : option W → V → W)
    (m : gmap string V) (acc : gmap string W) (k : string) :
  foldl (upsert g) acc (range m) !! k =
  match m !! k with
  | Some v => Some (g (acc !! k) v)
  | None => acc !! k
  end.
Proof.
  destruct (m !! k) as [v|] eqn:Hk.
  - apply upsert_in; [apply range_NoDup|by apply range_elem_of].
  - by apply upsert_notin, range_notin.
Qed.

(** ** The per-run detail artifact *)

Lemma formatSummary_map_fmap `{MapOrder} (r : writeRun) :
  formatSummary_map r = cooked_of <$> rawRuns r.
Proof.
  apply map_eq. intros k. unfold formatSummary_map.
  change (λ (m : gmap string cookedWriteRun) (kv : string * rawWriteRun),
            <[kv.1 := mkCooked (opsPerSecSplit kv.2).1 (formatCSV kv.2)]> m)
    with (upsert (λ (_ : option cookedWriteRun) raw, cooked_of raw)).
  rewrite upsert_range_lookup, lookup_fmap. by destruct (rawRuns r !! k).
Qed.

Lemma string_app_assoc (a b c : string) : (a +:+ b) +:+ c = a +:+ b +:+ c.
Proof.
  induction a as [|x a IH]; [done|].
  change (String x ((a +:+ b) +:+ c) = String x (a +:+ b +:+ c)). by f_equal.
Qed.

Lemma string_app_nil_r (a : string) : a +:+ "" = a.
Proof.
  induction a as [|x a IH]; [done|].
  change (String x (a +:+ "") = String x a). by f_equal.
Qed.

Lemma concat_nil_sep_cons (x : string) (xs : list string) :
  String.concat "" (x :: xs) = x +:+ String.concat "" xs.
Proof.
  destruct xs as [|y xs]; [symmetry; apply string_app_nil_r|done].
Qed.

Lemma rows_terminated_cons (p : writePoint) (ps : list writePoint) :
  rows_terminated (p :: ps) = formatCSV_point p +:+ nl +:+ rows_terminated ps.
Proof.
  unfold rows_terminated. rewrite fmap_cons, concat_nil_sep_cons.
  apply string_app_assoc.
Qed.

Lemma formatCSV_acc (ps : list writePoint) (b : string) :
  foldl (λ b p, b +:+ formatCSV_point p +:+ nl) b ps = b +:+ rows_terminated ps.
Proof.
  revert b. induction ps as [|p ps IH]; intros b.
  - symmetry. apply string_app_nil_r.
  - rewrite rows_terminated_cons. cbn [foldl]. rewrite IH.
    by rewrite !string_app_assoc.
Qed.

Lemma formatCSV_rows (raw : rawWriteRun) :
  formatCSV raw = rows_terminated (points raw).
Proof. unfold formatCSV. by rewrite formatCSV_acc. Qed.

Lemma rows_terminated_joined (ps : list writePoint) :
  ps ≠ [] → rows_terminated ps = rows_joined ps +:+ nl.
Proof.
  induction ps as [|p ps IH]; intros Hne; [done|].
  rewrite rows_terminated_cons. destruct ps as [|q ps].
  - done.
  - rewrite IH by done. unfold rows_joined. rewrite !fmap_cons.
    change (String.concat nl (formatCSV_point p :: formatCSV_point q :: (formatCSV_point <$> ps)))
      with (formatCSV_point p +:+ nl +:+
            String.concat nl (formatCSV_point q :: (formatCSV_point <$> ps))).
    by rewrite !string_app_assoc.
Qed.

(** C9, as amended.  For every worker-run of a run, the [rawData] string of
    its entry in the per-run detail artifact is its samples rendered in
    order, one row [elapsedSecs,opsSec,passed,size,levels,writeAmp] per
    sample with [writeAmp] formatted to two decimal places, every row
    ended by a newline: the rows joined by newlines, followed by one more
    newline. *)
Theorem rawData_rows `{MapOrder} (r : writeRun) (f : string) (raw : rawWriteRun) :
  rawRuns r !! f = Some raw →
  ∃ c, formatSummary_map r !! f = Some c ∧
       c_Raw c = rows_terminated (points raw) ∧
       (points raw ≠ [] → c_Raw c = rows_joined (points raw) +:+ nl) ∧
       (∀ p, formatCSV_point p =
             fmt_int (elapsedSecs p) +:+ "," +:+ fmt_int (opsSec p) +:+ "," +:+
             fmt_bool (passed p) +:+ "," +:+ fmt_int (size p) +:+ "," +:+
             fmt_int (levels p) +:+ "," +:+ fmt_f2 (writeAmp p)).
Proof.
  intros Hf. exists (cooked_of raw).
  rewrite formatSummary_map_fmap, lookup_fmap, Hf. simpl.
  split; [done|]. split; [apply formatCSV_rows|]. split; [|done].
  intros Hne. by rewrite formatCSV_rows, rows_terminated_joined.
Qed.

Lemma rawData_rows_witness :
  ∃ c, @formatSummary_map canonical_order two_worker_run
         !! "20230101/pebble/write/values=1024/1/a.gz" = Some c ∧
       c_Raw c = "5,1000,true,1024,3,2.00" +:+ nl.
Proof.
  destruct (@rawData_rows canonical_order two_worker_run
              "20230101/pebble/write/values=1024/1/a.gz"
              (mkRaw [pt 5 1000 true 2] 0)) as (c & Hc & Hraw & _).
  { vm_compute. reflexivity. }
  exists c. split; [exact Hc|]. rewrite Hraw. vm_compute. reflexivity.
Defined.

(** C9 as worded fails: the rows are not merely joined by newlines.  The
    [rawData] of a worker-run with the single sample
    [5,1000,true,1024,3,2.00] ends with a newline. *)
Lemma rawData_not_joined :
  ∃ c, @formatSummary_map canonical_order one_file_run
         !! "20230101/pebble/write/values=1024/1/a.gz" = Some c ∧
       rows_joined [pt 5 1000 true 2] = "5,1000,true,1024,3,2.00" ∧
       c_Raw c = "5,1000,true,1024,3,2.00" +:+ nl ∧
       c_Raw c ≠ rows_joined [pt 5 1000 true 2].
Proof.
  exists (cooked_of (mkRaw [pt 5 1000 true 2] 0)).
  split; [vm_compute; reflexivity|]. split; [vm_compute; reflexivity|].
  split; [vm_compute; reflexivity|]. vm_compute. discriminate.
Qed.

Lemma detail_opsSec_splits (m : gmap string rawWriteRun) :
  detail_opsSec (cooked_of <$> m) ≡ₚ split_of <$> (map_to_list m).*2.
Proof.
  unfold detail_opsSec. rewrite map_to_list_fmap.
  rewrite <- !list_fmap_compose. done.
Qed.

(** C10.  For a run of the tree, the [OpsSec] of its top-level summary is
    the truncating mean (over Go's [int]) of the [opsSec] values written
    for its files in the per-run detail artifact, whichever way the two
    loops walk the map: each file's value in the artifact is the split
    [summarize] computes for that file from the same, unchanged, stored
    worker-run. *)
Theorem summary_matches_detail (O1 O2 : MapOrder) (r : writeRun) :
  run_ok r →
  let detail := @formatSummary_map O2 r in
  let n := Z.of_nat (base.size detail) in
  (∀ f raw, rawRuns r !! f = Some raw →
     ∃ c, detail !! f = Some c ∧ c_OpsSec c = split_of raw) ∧
  ∃ s, @summarize O1 r = Some s ∧ 1 ≤ n ∧
       OpsSec s = wrap64 (sum_Z (detail_opsSec detail)) `quot` n ∧
       (int64_range (sum_Z (detail_opsSec detail)) →
        OpsSec s = sum_Z (detail_opsSec detail) `quot` n).
Proof.
  intros Hok. cbv zeta. rewrite formatSummary_map_fmap. split.
  - intros f raw Hf. exists (cooked_of raw). by rewrite lookup_fmap, Hf.
  - eexists. split; [by apply (@summarize_ok O1)|]. simpl.
    rewrite map_size_fmap.
    rewrite (sum_Z_perm _ _ (detail_opsSec_splits (rawRuns r))).
    fold (worker_runs r). split.
    { destruct Hok as [Hne _].
      assert (base.size (rawRuns r) ≠ 0%nat) by (by intros ?%map_size_empty_iff).
      lia. }
    split; [done|]. intros Hr. by rewrite wrap64_small.
Qed.

Lemma summary_matches_detail_witness :
  ∃ s, @summarize canonical_order two_worker_run = Some s ∧
       detail_opsSec (@formatSummary_map reverse_order two_worker_run)
         ≡ₚ [1000; 1200] ∧
       OpsSec s = 1100.
Proof.
  destruct (summary_matches_detail canonical_order reverse_order two_worker_run)
    as (_ & s & Hs & _ & Hops & _).
  { apply run_ok_decide. vm_compute. reflexivity. }
  exists s. split; [exact Hs|]. split.
  - vm_compute. apply Permutation_refl || apply perm_swap.
  - rewrite Hops. vm_compute. reflexivity.
Defined.

(** ** The scanning loop *)

Section Lines.
Context `{Collaborators}.
Implicit Types (ck : gmap (string * string) bool) (r : rawWriteRun).

Lemma scanLine_noise ck day pathRel r nm line :
  ¬ is_record line → scanLine ck day pathRel r nm line = (Continue r nm, []).
Proof.
  unfold is_record, scanLine. by destruct (String.prefix _ line).
Qed.

Lemma scanLine_scan_fails ck day pathRel r nm line :
  is_record line → scan_fails line →
  scanLine ck day pathRel r nm line =
  (Continue r nm, [DiagScan line (sc_err (Sscanf line))]).
Proof.
  unfold is_record, scan_fails, scanLine. intros -> Hf. simpl.
  by destruct (decide _).
Qed.

(** A scanned line when no name is known yet and its (name, day) is cooked. *)
Lemma scanLine_cooked ck day pathRel r line :
  is_record line → scan_ok line →
  is_cooked ck (sc_name (Sscanf line), day) = true →
  scanLine ck day pathRel r "" line =
  (Return, [DiagSkip pathRel (sc_name (Sscanf line)) day]).
Proof.
  unfold is_record, scan_ok, scanLine. intros -> [He Hn] Hc. simpl.
  destruct (decide _) as [[?|?]|_]; [done..|].
  destruct (decide ("" = "")); [|done]. by rewrite Hc.
Qed.

(** A scanned line when no name is known yet and its (name, day) is not
    cooked: the name is taken before the duration is looked at. *)
Lemma scanLine_first ck day pathRel r line :
  is_record line → scan_ok line →
  is_cooked ck (sc_name (Sscanf line), day) = false →
  scanLine ck day pathRel r "" line =
  match ParseDuration (sc_elapsed (Sscanf line)) with
  | inl err => (Continue r (sc_name (Sscanf line)), [DiagDuration line err])
  | inr d =>
      (Continue (mkRaw (points r ++
                          [with_elapsedSecs (sc_point (Sscanf line))
                             (int_of_float (Seconds d))]) (split r))
         (sc_name (Sscanf line)), [])
  end.
Proof.
  unfold is_record, scan_ok, scanLine. intros -> [He Hn] Hc. simpl.
  destruct (decide _) as [[?|?]|_]; [done..|].
  destruct (decide ("" = "")); [|done]. rewrite Hc.
  by destruct (ParseDuration _).
Qed.

(** A scanned line once a name is known. *)
Lemma scanLine_later ck day pathRel r nm line :
  is_record line → scan_ok line → nm ≠ "" →
  scanLine ck day pathRel r nm line =
  let warn := if decide (nm ≠ sc_name (Sscanf line))
              then [DiagNameDiffers (sc_name (Sscanf line)) nm line] else [] in
  match ParseDuration (sc_elapsed (Sscanf line)) with
  | inl err => (Continue r nm, warn ++ [DiagDuration line err])
  | inr d =>
      (Continue (mkRaw (points r ++
                          [with_elapsedSecs (sc_point (Sscanf line))
                             (int_of_float (Seconds d))]) (split r))
         nm, warn)
  end.
Proof.
  unfold is_record, scan_ok, scanLine. intros -> [He Hn] Hnm. simpl.
  destruct (decide _) as [[?|?]|_]; [done..|].
  destruct (decide (nm = "")); [done|].
  destruct (decide (nm ≠ _)); by destruct (ParseDuration _).
Qed.

(** The loop appends samples and leaves the memo of the run alone: a run
    scanned from the zero value has its split unset. *)
Lemma scanLines_split ck day pathRel r nm lines r' nm' d :
  scanLines ck day pathRel r nm lines = (Some (r', nm'), d) → split r' = split r.
Proof.
  revert r nm d. induction lines as [|line lines IH]; intros r nm d Hs.
  { by simplify_eq/=. }
  simpl in Hs.
  destruct (scanLine ck day pathRel r nm line) as [[r1 nm1|] d1] eqn:Hstep; [|done].
  assert (split r1 = split r) as <-.
  { unfold scanLine in Hstep. destruct (negb _); [by simplify_eq|].
    destruct (decide _); [by simplify_eq|].
    destruct (decide (nm = "")).
    - destruct (is_cooked _ _); [done|].
      destruct (ParseDuration _); by simplify_eq.
    - destruct (decide _); destruct (ParseDuration _); by simplify_eq. }
  destruct (scanLines ck day pathRel r1 nm1 lines) as [[[r2 nm2]|] d2] eqn:Hrest;
    [|done].
  simplify_eq. by eapply IH.
Qed.

Lemma scan_ok_or_fails line : scan_ok line ∨ scan_fails line.
Proof.
  unfold scan_ok, scan_fails.
  destruct (sc_err (Sscanf line)); [right; by left|].
  destruct (decide (sc_n (Sscanf line) = 7)); [by left|right; by right].
Qed.

End Lines.

Section LineClaims.
Context `{Collaborators}.
Implicit Types (ck : gmap (string * string) bool) (r : rawWriteRun) (wr : writeRun).

Lemma addRawRun_stored (l : writeLoader) (nm day path : string) (raw : rawWriteRun) :
  points raw ≠ [] →
  ∃ w wr, workloads (addRawRun l nm day path raw).1 !! nm = Some w ∧
          days w !! day = Some wr ∧ rawRuns wr !! path = Some raw ∧
          (addRawRun l nm day path raw).2 =
            [DiagAdd nm day (length (points raw)) path].
Proof.
  intros Hne. unfold addRawRun.
  destruct (decide (length (points raw) = 0%nat)) as [Hz|_].
  { by apply length_zero_iff_nil in Hz. }
  simpl. eexists _, _. rewrite lookup_insert_eq. split; [done|]. simpl.
  rewrite lookup_insert_eq. split; [done|]. simpl.
  by rewrite lookup_insert_eq.
Qed.

(** The scan of a file holding one well-formed and one malformed record
    line, in either order. *)
Lemma scanLines_good_bad ck day pathRel good bad lines p :
  lines = [good; bad] ∨ lines = [bad; good] →
  is_record good → scan_ok good → sample_of good = Some p →
  is_record bad → scan_fails bad →
  is_cooked ck (sc_name (Sscanf good), day) = false →
  scanLines ck day pathRel rawWriteRun_zero "" lines =
  (Some (mkRaw [p] 0, sc_name (Sscanf good)),
   [DiagScan bad (sc_err (Sscanf bad))]).
Proof.
  intros Hl Hg Hok Hp Hb Hf Hck. unfold sample_of in Hp.
  destruct Hl as [-> | ->]; simpl.
  - rewrite (scanLine_first _ _ _ _ _ Hg Hok Hck).
    destruct (ParseDuration _) as [e|d]; [done|]. injection Hp as <-.
    by rewrite (scanLine_scan_fails _ _ _ _ _ _ Hb Hf).
  - rewrite (scanLine_scan_fails _ _ _ _ _ _ Hb Hf).
    rewrite (scanLine_first _ _ _ _ _ Hg Hok Hck).
    destruct (ParseDuration _) as [e|d]; [done|]. by injection Hp as <-.
Qed.

(** C5.  A line without the record tag is ignored without a diagnostic; a
    record line whose scan fails (an error, or not seven fields) is
    reported and skipped, and the loop goes on with the run and the name
    unchanged; a record line whose duration does not convert is reported
    and adds no sample.  A file with one well-formed and one malformed
    record line therefore yields a worker-run with exactly one sample and
    one reported scan error. *)
Theorem malformed_lines_tolerated ck day pathRel r nm line :
  (¬ is_record line →
   scanLine ck day pathRel r nm line = (Continue r nm, [])) ∧
  (is_record line → scan_fails line →
   scanLine ck day pathRel r nm line =
   (Continue r nm, [DiagScan line (sc_err (Sscanf line))])) ∧
  (is_record line → scan_ok line → sample_of line = None →
   (nm = "" → is_cooked ck (sc_name (Sscanf line), day) = false) →
   ∃ nm' d err, scanLine ck day pathRel r nm line =
                (Continue r nm', d ++ [DiagDuration line err])) ∧
  (∀ (l : writeLoader) (f : rawFile) good bad lines p,
     lines = [good; bad] ∨ lines = [bad; good] →
     f_body f = Body lines → write_path (f_pathRel f) day →
     is_record good → scan_ok good → sample_of good = Some p →
     is_record bad → scan_fails bad →
     is_cooked (cooked l) (sc_name (Sscanf good), day) = false →
     ∃ w wr,
       workloads (walkFn l f).1 !! sc_name (Sscanf good) = Some w ∧
       days w !! day = Some wr ∧
       rawRuns wr !! f_pathRel f = Some (mkRaw [p] 0) ∧
       (walkFn l f).2 =
         [DiagScan bad (sc_err (Sscanf bad));
          DiagAdd (sc_name (Sscanf good)) day 1 (f_pathRel f)]).
Proof.
  split; [apply scanLine_noise|]. split; [apply scanLine_scan_fails|]. split.
  - intros Hrec Hok Hs Hck. unfold sample_of in Hs.
    destruct (decide (nm = "")) as [->|Hnm].
    + rewrite (scanLine_first _ _ _ _ _ Hrec Hok (Hck eq_refl)).
      destruct (ParseDuration _) as [e|d]; [|done]. by exists (sc_name (Sscanf line)), [], e.
    + rewrite (scanLine_later _ _ _ _ _ _ Hrec Hok Hnm). cbv zeta.
      destruct (ParseDuration _) as [e|d]; [|done]. by eexists _, _, e.
  - intros l f good bad lines p Hl Hbody (Hlen & Hw & Hday) Hg Hok Hp Hb Hf Hck.
    unfold walkFn. destruct (decide _) as [?|_]; [lia|].
    destruct (decide _) as [?|_]; [done|].
    rewrite Hday, Hbody. simpl.
    rewrite (scanLines_good_bad _ _ _ good bad lines p) by done.
    destruct (addRawRun_stored l (sc_name (Sscanf good)) day (f_pathRel f)
                (mkRaw [p] 0)) as (w & wr & Hw' & Hr' & Hraw & Hd); [done|].
    destruct (addRawRun _ _ _ _ _) as [l' d'] eqn:Hadd. simpl in *.
    exists w, wr. by rewrite Hd.
Qed.

End LineClaims.

Lemma malformed_lines_tolerated_witness :
  ∃ w r p,
    workloads (@walkFn (demo []) (newWriteLoader "data" "out")
                 (example_file [line_good; line_bad_ops])).1
      !! "values=1024" = Some w ∧
    days w !! "20230101" = Some r ∧
    rawRuns r !! example_path = Some (mkRaw [p] 0) ∧
    opsSec p = 1000 ∧ elapsedSecs p = 5.
Proof.
  destruct (@malformed_lines_tolerated (demo []) ∅ "20230101" example_path
              rawWriteRun_zero "" line_noise) as (_ & _ & _ & Hfile).
  destruct (Hfile (newWriteLoader "data" "out")
              (example_file [line_good; line_bad_ops])
              line_good line_bad_ops [line_good; line_bad_ops]
              (mkPoint 5 1000 true 1024 3 2%float))
    as (w & r & Hw & Hr & Hraw & _).
  - by left.
  - reflexivity.
  - vm_compute. repeat split; lia.
  - reflexivity.
  - vm_compute. by split.
  - vm_compute. reflexivity.
  - reflexivity.
  - vm_compute. left. discriminate.
  - reflexivity.
  - exists w, r, (mkPoint 5 1000 true 1024 3 2%float).
    repeat split; assumption || reflexivity.
Defined.

Section Names.
Context `{Collaborators}.
Implicit Types (ck : gmap (string * string) bool) (r : rawWriteRun).

(** Once a name is known the loop never leaves the file and never changes
    the name. *)
Lemma scanLines_named ck day pathRel r nm lines :
  nm ≠ "" →
  ∃ r' d, scanLines ck day pathRel r nm lines = (Some (r', nm), d).
Proof.
  intros Hnm. revert r. induction lines as [|line lines IH]; intros r; simpl.
  - by eexists _, _.
  - assert (∃ r1 d1, scanLine ck day pathRel r nm line = (Continue r1 nm, d1))
      as (r1 & d1 & ->).
    { destruct (decide (is_record line)) as [Hrec|Hrec];
        [|rewrite scanLine_noise by done; by eexists _, _].
      destruct (scan_ok_or_fails line) as [Hok|Hf];
        [|rewrite scanLine_scan_fails by done; by eexists _, _].
      rewrite scanLine_later by done. cbv zeta.
      destruct (ParseDuration _); by eexists _, _. }
    destruct (IH r1) as (r' & d & ->). by eexists _, _.
Qed.

Lemma first_scanned_name_cons line lines :
  first_scanned_name (line :: lines) =
  if decide (is_record line ∧ scan_ok line) then Some (sc_name (Sscanf line))
  else first_scanned_name lines.
Proof.
  unfold first_scanned_name, is_record, scan_ok. rewrite filter_cons.
  repeat case_decide; try done; exfalso; tauto.
Qed.

(** The name a file ends up with is the name of its first scanned line. *)
Lemma scanLines_first_name ck day pathRel r lines r' nm' d n :
  scanLines ck day pathRel r "" lines = (Some (r', nm'), d) →
  first_scanned_name lines = Some n → n ≠ "" → nm' = n.
Proof.
  revert r d. induction lines as [|line lines IH]; intros r d Hscan Hfirst Hn.
  { done. }
  rewrite first_scanned_name_cons in Hfirst. simpl in Hscan.
  destruct (decide (is_record line ∧ scan_ok line)) as [[Hrec Hok]|Hno].
  - injection Hfirst as <-.
    destruct (is_cooked ck (sc_name (Sscanf line), day)) eqn:Hck.
    { by rewrite scanLine_cooked in Hscan. }
    rewrite scanLine_first in Hscan by done.
    assert (∃ r1 d1, (match ParseDuration (sc_elapsed (Sscanf line)) with
                      | inl err => (Continue r (sc_name (Sscanf line)),
                                    [DiagDuration line err])
                      | inr dd => (Continue
                          (mkRaw (points r ++
                                    [with_elapsedSecs (sc_point (Sscanf line))
                                       (int_of_float (Seconds dd))]) (split r))
                          (sc_name (Sscanf line)), [])
                      end) = (Continue r1 (sc_name (Sscanf line)), d1))
      as (r1 & d1 & Heq) by (destruct (ParseDuration _); by eexists _, _).
    rewrite Heq in Hscan.
    destruct (scanLines_named ck day pathRel r1 _ lines Hn) as (r2 & d2 & Hrest).
    rewrite Hrest in Hscan. by injection Hscan as _ <- _.
  - assert (scanLine ck day pathRel r "" line = (Continue r "", []) ∨
            scanLine ck day pathRel r "" line =
              (Continue r "", [DiagScan line (sc_err (Sscanf line))])) as Hstep.
    { destruct (decide (is_record line)) as [Hrec|Hrec];
        [|left; by apply scanLine_noise].
      destruct (scan_ok_or_fails line) as [Hok|Hf]; [tauto|].
      right. by apply scanLine_scan_fails. }
    destruct Hstep as [Heq|Heq]; rewrite Heq in Hscan;
      destruct (scanLines ck day pathRel r "" lines) as [[[r2 nm2]|] d2] eqn:Hrest;
      try done; injection Hscan as -> -> _; by eapply IH.
Qed.

(** C6, as amended.  The first record line whose scan finds all seven
    fields establishes the benchmark name of the file, whether or not its
    duration then converts; a later scanned line with another name is
    reported, its sample is still appended when its duration converts,
    and from then on the loop never leaves the file. *)
Theorem canonical_name ck day pathRel r nm line :
  is_record line → scan_ok line →
  (is_cooked ck (sc_name (Sscanf line), day) = false →
   ∃ r' d, scanLine ck day pathRel r "" line =
             (Continue r' (sc_name (Sscanf line)), d) ∧
           points r' = points r ++ option_list (sample_of line)) ∧
  (nm ≠ "" →
   ∃ r' d, scanLine ck day pathRel r nm line = (Continue r' nm, d) ∧
           points r' = points r ++ option_list (sample_of line) ∧
           (nm ≠ sc_name (Sscanf line) →
            DiagNameDiffers (sc_name (Sscanf line)) nm line ∈ d)) ∧
  (nm ≠ "" → ∀ lines,
   ∃ r' d, scanLines ck day pathRel r nm lines = (Some (r', nm), d)) ∧
  (∀ lines r' nm' d n,
     scanLines ck day pathRel r "" lines = (Some (r', nm'), d) →
     first_scanned_name lines = Some n → n ≠ "" → nm' = n).
Proof.
  intros Hrec Hok. split; [|split; [|split]].
  - intros Hck. rewrite scanLine_first by done. unfold sample_of.
    destruct (ParseDuration _); eexists _, _; (split; [done|]); simpl;
      by rewrite ?app_nil_r.
  - intros Hnm. rewrite scanLine_later by done. cbv zeta. unfold sample_of.
    destruct (ParseDuration _); eexists _, _; (split; [done|]); simpl;
      rewrite ?app_nil_r; (split; [done|]); intros Hne;
      destruct (decide _); try done; set_solver.
  - intros Hnm lines. by apply scanLines_named.
  - intros lines r' nm' d n. apply scanLines_first_name.
Qed.

End Names.

Lemma canonical_name_witness :
  ∃ r d, @scanLine (demo []) ∅ "20230101" example_path rawWriteRun_zero
           "values=1024" line_other_name = (Continue r "values=1024", d) ∧
         length (points r) = 1%nat ∧
         DiagNameDiffers "values=256" "values=1024" line_other_name ∈ d.
Proof.
  destruct (@canonical_name (demo []) ∅ "20230101" example_path rawWriteRun_zero
              "values=1024" line_other_name) as (_ & Hlater & _).
  - reflexivity.
  - vm_compute. by split.
  - destruct Hlater as (r & d & Hstep & Hpts & Hwarn); [discriminate|].
    exists r, d. split; [exact Hstep|]. split.
    + rewrite Hpts. reflexivity.
    + apply Hwarn. vm_compute. discriminate.
Defined.

(** C6 as worded fails: a line whose scan succeeds but whose duration does
    not convert still establishes the name.  The file below has a first
    line named [values=64] with the duration [soon] and a well-formed
    second line named [values=1024]: the first completely converted line
    is the second, yet the file keeps the name [values=64] and the second
    line is reported as differing. *)
Lemma name_taken_before_duration :
  @first_well_formed_name (demo []) [line_bad_duration; line_good]
    = Some "values=1024" ∧
  @scanLines (demo []) ∅ "20230101" example_path rawWriteRun_zero ""
    [line_bad_duration; line_good] =
  (Some (mkRaw [mkPoint 5 1000 true 1024 3 2%float] 0, "values=64"),
   [DiagDuration line_bad_duration "time: missing unit in duration";
    DiagNameDiffers "values=1024" "values=64" line_good]).
Proof. split; vm_compute; reflexivity. Qed.

(** ** Load phase *)

(** C7.  When the top-level summary file does not exist, [loadCooked]
    returns without error and leaves the fresh loader as it is, with an
    empty cooked set and no cooked summaries; when the file is there and
    [json.Unmarshal] rejects its bytes, [loadCooked] returns that error
    and [parseWrite] ends with it, before anything is read or written. *)
Theorem loadCooked_absent_or_malformed `{Collaborators, MapOrder}
    (dataDir summaryDir : string) (t : dataTree) (fs : fileSystem) :
  let l := newWriteLoader dataDir summaryDir in
  let path := filepath_Join summaryDir summaryFilename in
  (ReadFile fs path = ReadNotExist →
   loadCooked l fs = inr l ∧ cooked l = ∅ ∧ cookedSummaries l = ∅) ∧
  (∀ b e, ReadFile fs path = ReadBytes b → json_Unmarshal b = inl e →
     loadCooked l fs = inl e ∧
     parseWrite dataDir summaryDir t fs = (Failed e, fs, [])).
Proof.
  cbv zeta. split.
  - intros Hr. unfold loadCooked. simpl. by rewrite Hr.
  - intros b e Hr Hj.
    assert (loadCooked (newWriteLoader dataDir summaryDir) fs = inl e) as Hl.
    { unfold loadCooked. simpl. by rewrite Hr, Hj. }
    split; [done|]. unfold parseWrite. by rewrite Hl.
Qed.

Lemma loadCooked_absent_or_malformed_witness :
  @loadCooked (demo []) canonical_order (newWriteLoader "data" "out") empty_fs
    = inr (newWriteLoader "data" "out") ∧
  @parseWrite (demo []) canonical_order "data" "out"
    (mkTree [example_file [line_good]] None) garbled_fs
    = (Failed "invalid character", garbled_fs, []).
Proof.
  destruct (@loadCooked_absent_or_malformed (demo []) canonical_order
              "data" "out" (mkTree [example_file [line_good]] None) empty_fs)
    as [Habsent _].
  destruct (@loadCooked_absent_or_malformed (demo []) canonical_order
              "data" "out" (mkTree [example_file [line_good]] None) garbled_fs)
    as [_ Hbad].
  split.
  - apply Habsent. vm_compute. reflexivity.
  - apply (Hbad "{ not json" "invalid character"); vm_compute; reflexivity.
Defined.

(** ** Merge phase *)

Global Instance date_le_trans : Transitive date_le.
Proof. intros a b c. unfold date_le. apply transitivity. Qed.

Global Instance date_le_total : Total date_le.
Proof. intros a b. unfold date_le. apply total, _. Qed.

Lemma StronglySorted_dates (l : writeWorkloadSummary) :
  StronglySorted String.le (dates l) → StronglySorted date_le l.
Proof.
  unfold dates. induction l as [|a l IH]; intros Hs; [constructor|].
  rewrite fmap_cons in Hs. apply StronglySorted_inv in Hs as [Hl Ha].
  constructor; [by apply IH|].
  apply Forall_forall. intros b Hb. rewrite Forall_forall in Ha.
  apply Ha. apply list_elem_of_fmap. by exists b.
Qed.

Section Merge.
Context `{MapOrder}.

(** The loop of [cookWriteSummary] over days that all lead to a run. *)
Lemma cookWriteSummary_loop (m : gmap string writeRun) (ds : list string)
    (acc : writeWorkloadSummary) :
  (∀ day, day ∈ ds → ∃ r, m !! day = Some r ∧ run_ok r ∧ date r = day) →
  ∃ ss,
    foldl (λ acc day,
             summary ← acc; r ← m !! day; s ← summarize r;
             Some (summary ++ [s])) (Some acc) ds = Some (acc ++ ss) ∧
    dates ss = ds.
Proof.
  revert acc. induction ds as [|day ds IH]; intros acc Hall.
  - exists []. by rewrite app_nil_r.
  - destruct (Hall day) as (r & Hr & Hok & Hd); [left|].
    destruct (IH (acc ++ [default (mkSummary "" "" 0 0%float "") (summarize r)]))
      as (ss & Hss & Hdates).
    { intros d Hin. apply Hall. by right. }
    pose proof (summarize_ok r Hok) as Hsum.
    exists (default (mkSummary "" "" 0 0%float "") (summarize r) :: ss). split.
    + simpl. rewrite Hr. simpl. rewrite Hsum in *. simpl in *.
      rewrite Hss. by rewrite <- app_assoc.
    + unfold dates in *. rewrite fmap_cons, Hdates, Hsum. simpl. by rewrite Hd.
Qed.

Lemma range_keys_elem_of {V} (m : gmap string V) (k : string) :
  k ∈ (range m).*1 ↔ is_Some (m !! k).
Proof.
  split.
  - intros ([k' v] & -> & Hin)%list_elem_of_fmap.
    apply range_elem_of in Hin. by exists v.
  - intros [v Hv]. apply list_elem_of_fmap. exists (k, v).
    split; [done|]. by apply range_elem_of.
Qed.

(** [cookWriteSummary] on a well-formed workload: one summary per day, in
    ascending order of date. *)
Lemma cookWriteSummary_ok (w : writeWorkload) :
  workload_ok w →
  ∃ new, cookWriteSummary w = Some new ∧
         dates new = sort_Strings (range (days w)).*1 ∧
         StronglySorted date_le new ∧ NoDup (dates new) ∧
         (∀ d, d ∈ dates new ↔ is_Some (days w !! d)).
Proof.
  intros Hok. unfold cookWriteSummary.
  assert (Hperm : sort_Strings (range (days w)).*1 ≡ₚ (range (days w)).*1)
    by apply merge_sort_Permutation.
  destruct (cookWriteSummary_loop (days w) (sort_Strings (range (days w)).*1) [])
    as (new & Hnew & Hdates).
  { intros day Hin. rewrite Hperm in Hin.
    apply range_keys_elem_of in Hin as [r Hr].
    exists r. split; [done|]. by apply Hok. }
  exists new. split; [done|]. split; [done|]. split; [|split].
  - apply StronglySorted_dates. rewrite Hdates.
    apply StronglySorted_merge_sort; apply _.
  - rewrite Hdates, Hperm. apply range_NoDup.
  - intros d. rewrite Hdates, Hperm. apply range_keys_elem_of.
Qed.

Lemma mix_in_upsert (summary : gmap string writeWorkloadSummary)
    (kvs : list (string * writeWorkloadSummary)) :
  foldl mix_in summary kvs = foldl (upsert mixed) summary kvs.
Proof.
  revert summary. induction kvs as [|kv kvs IH]; intros summary; [done|].
  simpl. rewrite <- IH. f_equal.
  unfold mix_in, upsert, mixed. by destruct (_ !! _).
Qed.

End Merge.

Section MergeMap.
Context `{MapOrder}.

Lemma tree_workload_ok (ws : gmap string writeWorkload) (nm : string)
    (w : writeWorkload) :
  tree_ok ws → tree_keyed ws → ws !! nm = Some w → workload_ok w.
Proof.
  intros Hok Hkey Hw day r Hr. split; [by eapply Hok|].
  by destruct (Hkey nm w day r Hw Hr).
Qed.

(** The first loop of [cookSummary] over well-formed workloads. *)
Lemma cook_new_loop (kvs : list (string * writeWorkload))
    (acc : gmap string writeWorkloadSummary) :
  Forall (λ kv, workload_ok kv.2) kvs →
  foldl (λ acc kv, m ← acc; s ← cookWriteSummary kv.2; Some (<[kv.1 := s]> m))
        (Some acc) kvs =
  Some (foldl (upsert (λ _ w, new_of w)) acc kvs).
Proof.
  revert acc. induction kvs as [|kv kvs IH]; intros acc Hall; [done|].
  apply Forall_cons in Hall as [Hkv Hall]. simpl.
  destruct (cookWriteSummary_ok kv.2 Hkv) as (new & Hnew & _).
  rewrite Hnew. simpl. rewrite IH by done. do 2 f_equal.
  unfold upsert, new_of. by rewrite Hnew.
Qed.

(** The map [cookSummary] renders, entry by entry. *)
Lemma cookSummary_map_lookup (l : writeLoader) :
  tree_ok (workloads l) → tree_keyed (workloads l) →
  ∃ summary, cookSummary_map l = Some summary ∧
    ∀ nm, summary !! nm =
          match cookedSummaries l !! nm with
          | Some ck => Some (mixed (new_of <$> workloads l !! nm) ck)
          | None => new_of <$> workloads l !! nm
          end.
Proof.
  intros Hok Hkey. unfold cookSummary_map.
  rewrite cook_new_loop.
  2:{ apply (range_Forall (λ _ w, workload_ok w)). intros nm w Hw.
      by eapply tree_workload_ok. }
  simpl. eexists. split; [done|]. intros nm.
  rewrite mix_in_upsert, !upsert_range_lookup, lookup_empty.
  destruct (cookedSummaries l !! nm); by destruct (workloads l !! nm).
Qed.

(** C2, as amended.  In the map [cookSummary] writes, a workload with new
    and with cooked data holds the new summaries and the cooked ones
    together (a permutation of their concatenation: no entry is dropped),
    sorted ascending by date; it holds at most one entry per date when the
    cooked sequence has no date twice and no cooked date is a day of the
    new data, which the filter of the load phase ensures.  A workload
    with new data only holds one summary per day in ascending order; a
    workload with cooked data only is passed through as loaded. *)
Theorem merged_summary (l : writeLoader) :
  tree_ok (workloads l) → tree_keyed (workloads l) →
  ∃ summary, cookSummary_map l = Some summary ∧
    ∀ nm,
      match workloads l !! nm, cookedSummaries l !! nm with
      | Some w, Some ck =>
          ∃ new merged,
            cookWriteSummary w = Some new ∧ summary !! nm = Some merged ∧
            merged ≡ₚ new ++ ck ∧ StronglySorted date_le merged ∧
            (NoDup (dates ck) →
             (∀ d, d ∈ dates ck → days w !! d = None) →
             NoDup (dates merged))
      | Some w, None =>
          ∃ new, cookWriteSummary w = Some new ∧ summary !! nm = Some new ∧
                 StronglySorted date_le new ∧ NoDup (dates new) ∧
                 (∀ d, d ∈ dates new ↔ is_Some (days w !! d))
      | None, Some ck => summary !! nm = Some ck
      | None, None => summary !! nm = None
      end.
Proof.
  intros Hok Hkey.
  destruct (cookSummary_map_lookup l Hok Hkey) as (summary & Hs & Hlook).
  exists summary. split; [done|]. intros nm. rewrite Hlook.
  destruct (workloads l !! nm) as [w|] eqn:Hw;
    destruct (cookedSummaries l !! nm) as [ck|] eqn:Hck; simpl; try done.
  - destruct (cookWriteSummary_ok w) as (new & Hnew & _ & _ & Hnd & Hdays).
    { by eapply tree_workload_ok. }
    exists new, (sort_by_Date (new ++ ck)). unfold new_of. rewrite Hnew. simpl.
    split; [done|]. split; [done|].
    split; [apply merge_sort_Permutation|].
    split; [apply StronglySorted_merge_sort; apply _|].
    intros Hck_nd Hdisj. unfold dates, sort_by_Date.
    rewrite merge_sort_Permutation, fmap_app. apply NoDup_app.
    split; [done|]. split; [|done].
    intros d Hd Hd'. apply Hdays in Hd as [r Hr].
    specialize (Hdisj d Hd'). congruence.
  - destruct (cookWriteSummary_ok w) as (new & Hnew & _ & Hsorted & Hnd & Hdays).
    { by eapply tree_workload_ok. }
    exists new. unfold new_of. by rewrite Hnew.
Qed.

End MergeMap.

Lemma tree_0102_ok : tree_ok tree_0102 ∧ tree_keyed tree_0102.
Proof.
  split; intros nm w day r Hw Hr;
    unfold tree_0102 in Hw; apply lookup_singleton_Some in Hw as [<- <-];
    simpl in Hr; apply lookup_singleton_Some in Hr as [<- <-].
  - apply run_ok_decide. vm_compute. reflexivity.
  - done.
Defined.

Lemma merged_summary_witness :
  ∃ summary merged,
    @cookSummary_map canonical_order gap_loader = Some summary ∧
    summary !! "values=1024" = Some merged ∧
    StronglySorted date_le merged ∧
    dates merged = ["2023-01-01"; "2023-01-02"; "2023-01-03"].
Proof.
  destruct (@merged_summary canonical_order gap_loader)
    as (summary & Hs & Hall);
    [apply tree_0102_ok|apply tree_0102_ok|].
  specialize (Hall "values=1024").
  assert (Hw : workloads gap_loader !! "values=1024"
               = Some (mkWorkload {["2023-01-02" := run_0102]}))
    by (vm_compute; reflexivity).
  assert (Hc : cookedSummaries gap_loader !! "values=1024"
               = Some [cooked_0101; cooked_0103])
    by (vm_compute; reflexivity).
  rewrite Hw, Hc in Hall.
  destruct Hall as (new & merged & Hnew & Hm & Hperm & Hsorted & _).
  exists summary, merged. split; [exact Hs|]. split; [exact Hm|].
  split; [exact Hsorted|].
  assert (Hcomp : (λ m, dates (default [] (m !! "values=1024")))
                    <$> @cookSummary_map canonical_order gap_loader
                  = Some ["2023-01-01"; "2023-01-02"; "2023-01-03"])
    by (vm_compute; reflexivity).
  rewrite Hs in Hcomp. simpl in Hcomp. rewrite Hm in Hcomp.
  simpl in Hcomp. by injection Hcomp.
Defined.

(** C2 as worded fails: [cookSummary] concatenates and sorts, it does not
    eliminate.  With new data for 2023-01-02 and a cooked summary for the
    same day, the merged sequence holds two entries for that date. *)
Lemma merged_summary_keeps_duplicates :
  (λ m, dates (default [] (m !! "values=1024")))
    <$> @cookSummary_map canonical_order clash_loader
  = Some ["2023-01-01"; "2023-01-02"; "2023-01-02"] ∧
  ¬ NoDup ["2023-01-01"; "2023-01-02"; "2023-01-02"].
Proof.
  split; [vm_compute; reflexivity|].
  intros Hnd. apply NoDup_cons in Hnd as [_ Hnd].
  apply NoDup_cons in Hnd as [Hin _]. apply Hin. left.
Qed.

(** ** Running the pipeline again *)

Section Rescan.
Context `{Collaborators}.
Implicit Types (ck : gmap (string * string) bool) (r : rawWriteRun).

(** With more pairs cooked, a line is handled as before or ends the file. *)
Lemma scanLine_mono ck ck' day pathRel r nm line :
  cooked_sub ck ck' →
  scanLine ck' day pathRel r nm line = scanLine ck day pathRel r nm line ∨
  ∃ n, scanLine ck' day pathRel r nm line = (Return, [DiagSkip pathRel n day]).
Proof.
  intros Hsub.
  destruct (decide (is_record line)) as [Hrec|Hrec];
    [|left; by rewrite !scanLine_noise].
  destruct (scan_ok_or_fails line) as [Hok|Hf];
    [|left; by rewrite !scanLine_scan_fails].
  destruct (decide (nm = "")) as [->|Hnm];
    [|left; by rewrite !scanLine_later].
  destruct (is_cooked ck' (sc_name (Sscanf line), day)) eqn:Hck'.
  - right. eexists. by apply scanLine_cooked.
  - left. destruct (is_cooked ck (sc_name (Sscanf line), day)) eqn:Hck.
    + apply Hsub in Hck. congruence.
    + by rewrite !scanLine_first.
Qed.

Lemma scanLines_mono ck ck' day pathRel r nm lines :
  cooked_sub ck ck' →
  scanLines ck' day pathRel r nm lines = scanLines ck day pathRel r nm lines ∨
  ∃ d, scanLines ck' day pathRel r nm lines = (None, d).
Proof.
  intros Hsub. revert r nm. induction lines as [|line lines IH]; intros r nm.
  { by left. }
  simpl. destruct (scanLine_mono ck ck' day pathRel r nm line Hsub)
    as [->|[n ->]]; [|right; by eexists].
  destruct (scanLine ck day pathRel r nm line) as [[r1 nm1|] d1]; [|by left].
  destruct (IH r1 nm1) as [->|[d ->]]; [by left|right; by eexists].
Qed.

(** A file without a scanned line leaves the run and the name alone. *)
Lemma scanLines_unscanned ck day pathRel r nm lines :
  first_scanned_name lines = None →
  ∃ d, scanLines ck day pathRel r nm lines = (Some (r, nm), d).
Proof.
  induction lines as [|line lines IH]; intros Hnone; [by eexists|].
  rewrite first_scanned_name_cons in Hnone.
  destruct (decide (is_record line ∧ scan_ok line)) as [?|Hno]; [done|].
  destruct (IH Hnone) as [d Hd]. simpl.
  destruct (decide (is_record line)) as [Hrec|Hrec].
  - destruct (scan_ok_or_fails line) as [Hok|Hf]; [tauto|].
    rewrite scanLine_scan_fails, Hd by done. by eexists.
  - rewrite scanLine_noise, Hd by done. by eexists.
Qed.

(** A file whose samples were filed under [(nm', day)] is left at its
    first cooked check once [(nm', day)] is cooked. *)
Lemma scanLines_skip ck ck' day pathRel r lines r' nm' d :
  cooked_sub ck ck' →
  scanLines ck day pathRel r "" lines = (Some (r', nm'), d) →
  is_Some (first_scanned_name lines) →
  is_cooked ck' (nm', day) = true →
  ∃ d', scanLines ck' day pathRel r "" lines = (None, d').
Proof.
  intros Hsub. revert r d.
  induction lines as [|line lines IH]; intros r d Hscan Hfirst Hck'.
  { by destruct Hfirst. }
  rewrite first_scanned_name_cons in Hfirst. simpl in Hscan |- *.
  destruct (decide (is_record line ∧ scan_ok line)) as [[Hrec Hok]|Hno].
  - destruct (is_cooked ck' (sc_name (Sscanf line), day)) eqn:Hn'.
    { rewrite scanLine_cooked by done. by eexists. }
    destruct (is_cooked ck (sc_name (Sscanf line), day)) eqn:Hn.
    { apply Hsub in Hn. congruence. }
    rewrite scanLine_first by done. rewrite scanLine_first in Hscan by done.
    destruct (decide (sc_name (Sscanf line) = "")) as [Hempty|Hnamed].
    + rewrite Hempty in *.
      destruct (first_scanned_name lines) as [n|] eqn:Hrest.
      * destruct (ParseDuration _) as [e|dd].
        -- destruct (scanLines ck day pathRel r "" lines)
             as [[[r2 nm2]|] d2] eqn:Hr2; [|done].
           injection Hscan as -> -> _.
           destruct (IH r d2 Hr2) as [d' ->]; [done|done|]. by eexists.
        -- destruct (scanLines ck day pathRel _ "" lines)
             as [[[r2 nm2]|] d2] eqn:Hr2; [|done].
           injection Hscan as -> -> _.
           destruct (IH _ d2 Hr2) as [d' ->]; [done|done|]. by eexists.
      * exfalso. destruct (ParseDuration _) as [e|dd].
        -- destruct (scanLines_unscanned ck day pathRel r "" lines Hrest)
             as [d2 Hr2]. rewrite Hr2 in Hscan. injection Hscan as _ <- _.
           congruence.
        -- destruct (scanLines_unscanned ck day pathRel
                       (mkRaw (points r ++
                                 [with_elapsedSecs (sc_point (Sscanf line))
                                    (int_of_float (Seconds dd))]) (split r))
                       "" lines Hrest) as [d2 Hr2].
           rewrite Hr2 in Hscan. injection Hscan as _ <- _. congruence.
    + exfalso. destruct (ParseDuration _) as [e|dd].
      * destruct (scanLines_named ck day pathRel r _ lines Hnamed)
          as (r2 & d2 & Hr2). rewrite Hr2 in Hscan.
        injection Hscan as _ <- _. congruence.
      * destruct (scanLines_named ck day pathRel
                    (mkRaw (points r ++
                              [with_elapsedSecs (sc_point (Sscanf line))
                                 (int_of_float (Seconds dd))]) (split r))
                    _ lines Hnamed) as (r2 & d2 & Hr2).
        rewrite Hr2 in Hscan. injection Hscan as _ <- _. congruence.
  - assert (∃ d1, scanLine ck day pathRel r "" line = (Continue r "", d1) ∧
                  scanLine ck' day pathRel r "" line = (Continue r "", d1))
      as (d1 & Hs1 & Hs2).
    { destruct (decide (is_record line)) as [Hrec|Hrec];
        [|eexists; by rewrite !scanLine_noise].
      destruct (scan_ok_or_fails line) as [Hok|Hf]; [tauto|].
      eexists. by rewrite !scanLine_scan_fails. }
    rewrite Hs1 in Hscan. rewrite Hs2.
    destruct (scanLines ck day pathRel r "" lines)
      as [[[r2 nm2]|] d2] eqn:Hr2; [|done].
    injection Hscan as -> -> _.
    destruct (IH r d2 Hr2) as [d' ->]; [done|done|]. by eexists.
Qed.

(** Leaving a file early is reported. *)
Lemma scanLines_None_reported ck day pathRel r nm lines d :
  scanLines ck day pathRel r nm lines = (None, d) →
  ∃ n, DiagSkip pathRel n day ∈ d.
Proof.
  revert r nm d. induction lines as [|line lines IH]; intros r nm d Hs; [done|].
  simpl in Hs.
  destruct (scanLine ck day pathRel r nm line) as [[r1 nm1|] d1] eqn:Hstep.
  - destruct (scanLines ck day pathRel r1 nm1 lines) as [res d2] eqn:Hrest.
    injection Hs as -> <-. destruct (IH _ _ _ Hrest) as [n Hn].
    exists n. apply elem_of_app. by right.
  - injection Hs as <-. unfold scanLine in Hstep.
    destruct (negb _); [done|]. destruct (decide _); [done|].
    destruct (decide (nm = "")).
    + destruct (is_cooked _ _).
      * injection Hstep as <-. eexists. left.
      * by destruct (ParseDuration _).
    + destruct (decide _); by destruct (ParseDuration _).
Qed.

(** The scanning loop itself never reports an added run. *)
Lemma scanLines_no_add ck day pathRel r nm lines :
  ∀ a b c e, DiagAdd a b c e ∉ (scanLines ck day pathRel r nm lines).2.
Proof.
  intros a b c e. revert r nm.
  induction lines as [|line lines IH]; intros r nm; simpl; [apply not_elem_of_nil|].
  assert (DiagAdd a b c e ∉ (scanLine ck day pathRel r nm line).2) as Hstep.
  { unfold scanLine. destruct (negb _); [apply not_elem_of_nil|].
    destruct (decide _); [set_solver|].
    destruct (decide (nm = "")).
    - destruct (is_cooked _ _); [set_solver|].
      destruct (ParseDuration _); set_solver.
    - destruct (decide _); destruct (ParseDuration _); set_solver. }
  destruct (scanLine ck day pathRel r nm line) as [[r1 nm1|] d1]; [|done].
  specialize (IH r1 nm1).
  destruct (scanLines ck day pathRel r1 nm1 lines) as [res d2].
  simpl in *. set_solver.
Qed.

End Rescan.

Section Reingest.
Context `{Collaborators}.

Lemma addRawRun_fields (l : writeLoader) nm day path raw :
  cooked (addRawRun l nm day path raw).1 = cooked l ∧
  cookedSummaries (addRawRun l nm day path raw).1 = cookedSummaries l ∧
  summaryDir (addRawRun l nm day path raw).1 = summaryDir l ∧
  dataDir (addRawRun l nm day path raw).1 = dataDir l.
Proof. unfold addRawRun. by destruct (decide _). Qed.

Lemma addRawRun_has_day_mono (l : writeLoader) nm day path raw a b :
  has_day l a b → has_day (addRawRun l nm day path raw).1 a b.
Proof.
  intros (w & Hw & Hd). unfold addRawRun. destruct (decide _); [by exists w|].
  unfold has_day. simpl. destruct (decide (a = nm)) as [->|Hne].
  - rewrite lookup_insert_eq. eexists. split; [done|]. simpl. rewrite Hw. simpl.
    destruct (decide (b = day)) as [->|Hne'].
    + by rewrite lookup_insert_eq.
    + by rewrite lookup_insert_ne.
  - rewrite lookup_insert_ne by done. by exists w.
Qed.

Lemma addRawRun_has_day (l : writeLoader) nm day path raw :
  points raw ≠ [] → has_day (addRawRun l nm day path raw).1 nm day.
Proof.
  intros Hne. destruct (addRawRun_stored l nm day path raw Hne)
    as (w & wr & Hw & Hr & _). exists w. split; [done|by exists wr].
Qed.

Lemma walkFn_fields (l : writeLoader) (f : rawFile) :
  cooked (walkFn l f).1 = cooked l ∧
  cookedSummaries (walkFn l f).1 = cookedSummaries l ∧
  summaryDir (walkFn l f).1 = summaryDir l ∧
  dataDir (walkFn l f).1 = dataDir l.
Proof.
  unfold walkFn. destruct (decide _); [done|]. destruct (decide _); [done|].
  destruct (f_body f); [done..|].
  destruct (scanLines _ _ _ _ _ _) as [[[r nm]|] d]; [|done].
  pose proof (addRawRun_fields l nm (default "" (split_on PathSeparator (f_pathRel f) !! 0%nat))
                (f_pathRel f) r) as Hf.
  by destruct (addRawRun _ _ _ _ _).
Qed.

Lemma walkFn_has_day_mono (l : writeLoader) (f : rawFile) a b :
  has_day l a b → has_day (walkFn l f).1 a b.
Proof.
  intros Hd. unfold walkFn. destruct (decide _); [done|]. destruct (decide _); [done|].
  destruct (f_body f); [done..|].
  destruct (scanLines _ _ _ _ _ _) as [[[r nm]|] d]; [|done].
  pose proof (addRawRun_has_day_mono l nm
                (default "" (split_on PathSeparator (f_pathRel f) !! 0%nat))
                (f_pathRel f) r a b Hd) as Hm.
  by destruct (addRawRun _ _ _ _ _).
Qed.

Lemma walkFn_built (l : writeLoader) (f : rawFile) : built l → built (walkFn l f).1.
Proof.
  intros Hb. unfold walkFn. destruct (decide _); [done|]. destruct (decide _); [done|].
  destruct (f_body f); [done..|].
  destruct (scanLines _ _ _ _ _ _) as [[[r nm]|] d]; [|done].
  pose proof (built_add l nm
                (default "" (split_on PathSeparator (f_pathRel f) !! 0%nat))
                (f_pathRel f) r Hb) as Hm.
  by destruct (addRawRun _ _ _ _ _).
Qed.

(** A file seen again once everything it contributed is cooked: the loader
    is left alone, nothing is added, and a run added the first time is
    now reported as skipped. *)
Lemma walkFn_rerun (l l' : writeLoader) (f : rawFile) :
  cooked_sub (cooked l) (cooked l') →
  (∀ nm day, has_day (walkFn l f).1 nm day → is_cooked (cooked l') (nm, day) = true) →
  (walkFn l' f).1 = l' ∧
  (∀ a b c e, DiagAdd a b c e ∉ (walkFn l' f).2) ∧
  (∀ a b c e, DiagAdd a b c e ∈ (walkFn l f).2 →
              ∃ n, DiagSkip e n b ∈ (walkFn l' f).2).
Proof.
  intros Hsub Hcooked. unfold walkFn in *.
  destruct (decide _); [set_solver|]. destruct (decide _); [set_solver|].
  destruct (f_body f) as [e|e|lines]; [set_solver..|].
  set (day := default "" (split_on PathSeparator (f_pathRel f) !! 0%nat)) in *.
  pose proof (scanLines_no_add (cooked l') day (f_pathRel f) rawWriteRun_zero ""
                lines) as Hnoadd'.
  pose proof (scanLines_no_add (cooked l) day (f_pathRel f) rawWriteRun_zero ""
                lines) as Hnoadd.
  destruct (scanLines (cooked l) day (f_pathRel f) rawWriteRun_zero "" lines)
    as [[[r nm]|] d] eqn:Hscan.
  - destruct (decide (points r = [])) as [Hp|Hp].
    + rewrite addRawRun_empty in * by done.
      destruct (scanLines_mono (cooked l) (cooked l') day (f_pathRel f)
                  rawWriteRun_zero "" lines Hsub) as [Heq|[d' Heq]];
        rewrite Heq in *; [rewrite Hscan in *; rewrite addRawRun_empty by done|];
        simpl in *; (split; [done|]); (split; [set_solver|]);
        intros a b c e Hin; exfalso; set_solver.
    + pose proof (addRawRun_stored l nm day (f_pathRel f) r Hp)
        as (w & wr & Hw & Hr & _ & Hd).
      pose proof (addRawRun_has_day l nm day (f_pathRel f) r Hp) as Hhas.
      destruct (addRawRun l nm day (f_pathRel f) r) as [l1 d1]. simpl in *.
      subst d1.
      assert (is_Some (first_scanned_name lines)) as Hfirst.
      { destruct (first_scanned_name lines) eqn:Hn; [done|]. exfalso.
        destruct (scanLines_unscanned (cooked l) day (f_pathRel f)
                    rawWriteRun_zero "" lines Hn) as [d0 Hd0].
        rewrite Hd0 in Hscan. by injection Hscan as <- _ _. }
      destruct (scanLines_skip (cooked l) (cooked l') day (f_pathRel f)
                  rawWriteRun_zero lines r nm d Hsub Hscan Hfirst
                  (Hcooked nm day Hhas)) as [d' Heq].
      rewrite Heq in *. simpl in *. split; [done|]. split; [done|].
      intros a b c e Hin. apply elem_of_app in Hin as [Hin|Hin].
      { by apply Hnoadd in Hin. }
      apply list_elem_of_singleton in Hin. injection Hin as -> -> -> ->.
      by eapply scanLines_None_reported.
  - destruct (scanLines_mono (cooked l) (cooked l') day (f_pathRel f)
                rawWriteRun_zero "" lines Hsub) as [Heq|[d' Heq]];
      rewrite Heq in *; [rewrite Hscan in *|]; simpl in *;
      (split; [done|]); (split; [done|]);
      intros a b c e Hin; by apply Hnoadd in Hin.
Qed.

Lemma walk_steps_fields (files : list rawFile) (l : writeLoader) (d : list diag) :
  cooked (foldl walk_step (l, d) files).1 = cooked l ∧
  cookedSummaries (foldl walk_step (l, d) files).1 = cookedSummaries l ∧
  summaryDir (foldl walk_step (l, d) files).1 = summaryDir l ∧
  dataDir (foldl walk_step (l, d) files).1 = dataDir l.
Proof.
  revert l d. induction files as [|f files IH]; intros l d; [done|].
  simpl. unfold walk_step at 2 4 6 8. simpl.
  pose proof (walkFn_fields l f) as (H1 & H2 & H3 & H4).
  destruct (walkFn l f) as [l1 d1]. simpl in *.
  destruct (IH l1 (d ++ d1)) as (? & ? & ? & ?). repeat split; congruence.
Qed.

Lemma walk_steps_has_day_mono (files : list rawFile) (l : writeLoader)
    (d : list diag) a b :
  has_day l a b → has_day (foldl walk_step (l, d) files).1 a b.
Proof.
  revert l d. induction files as [|f files IH]; intros l d Hd; [done|].
  simpl. unfold walk_step at 2. simpl.
  pose proof (walkFn_has_day_mono l f a b Hd) as Hm.
  destruct (walkFn l f) as [l1 d1]. by apply IH.
Qed.

Lemma walk_steps_built (files : list rawFile) (l : writeLoader) (d : list diag) :
  built l → built (foldl walk_step (l, d) files).1.
Proof.
  revert l d. induction files as [|f files IH]; intros l d Hb; [done|].
  simpl. unfold walk_step at 2. simpl.
  pose proof (walkFn_built l f Hb) as Hm.
  destruct (walkFn l f) as [l1 d1]. by apply IH.
Qed.

(** The whole data directory seen again. *)
Lemma walk_steps_rerun (files : list rawFile) (l l' : writeLoader)
    (d0 d0' : list diag) :
  cooked_sub (cooked l) (cooked l') →
  (∀ nm day, has_day (foldl walk_step (l, d0) files).1 nm day →
             is_cooked (cooked l') (nm, day) = true) →
  ∃ d2, foldl walk_step (l', d0') files = (l', d0' ++ d2) ∧
        (∀ a b c e, DiagAdd a b c e ∉ d2) ∧
        (∀ a b c e, DiagAdd a b c e ∈ (foldl walk_step (l, d0) files).2 →
                    DiagAdd a b c e ∈ d0 ∨ ∃ n, DiagSkip e n b ∈ d2).
Proof.
  revert l d0 d0'. induction files as [|f files IH]; intros l d0 d0' Hsub Hck.
  { exists []. rewrite app_nil_r. split; [done|]. split; [set_solver|]. by left. }
  simpl in *. unfold walk_step at 2 in Hck. unfold walk_step at 2 4. simpl in *.
  destruct (walkFn_rerun l l' f Hsub) as (Hl' & Hno & Hskip).
  { intros nm day Hd. apply Hck.
    destruct (walkFn l f) as [l1 d1]. by apply walk_steps_has_day_mono. }
  pose proof (walkFn_fields l f) as (Hc & _).
  destruct (walkFn l f) as [l1 d1]. destruct (walkFn l' f) as [l1' e1].
  simpl in *. subst l1'.
  destruct (IH l1 (d0 ++ d1) (d0' ++ e1)) as (d2 & Hfold & Hno2 & Hskip2).
  { by rewrite Hc. }
  { done. }
  exists (e1 ++ d2). rewrite Hfold, app_assoc. split; [done|]. split.
  - intros a b c e Hin. apply elem_of_app in Hin as [Hin|Hin];
      [by eapply Hno|by eapply Hno2].
  - intros a b c e Hin. destruct (Hskip2 a b c e Hin) as [Hin'|[n Hn]].
    + apply elem_of_app in Hin' as [Hin'|Hin']; [by left|].
      right. destruct (Hskip a b c e Hin') as [n Hn]. exists n.
      apply elem_of_app. by left.
    + right. exists n. apply elem_of_app. by right.
Qed.

End Reingest.

(** *** The cooked set *)

Lemma is_cooked_insert (c : gmap (string * string) bool) (k k' : string * string) :
  is_cooked (<[k' := true]> c) k = true ↔ k = k' ∨ is_cooked c k = true.
Proof.
  unfold is_cooked. destruct (decide (k = k')) as [->|Hne].
  - rewrite lookup_insert_eq. simpl. tauto.
  - rewrite lookup_insert_ne by done. split; [tauto|]. by intros [?|?].
Qed.

Lemma mark_cooked_is_cooked (c : gmap (string * string) bool) (nm : string)
    (ws : writeWorkloadSummary) (k : string * string) :
  is_cooked (mark_cooked c (nm, ws)) k = true ↔
  is_cooked c k = true ∨ (k.1 = nm ∧ k.2 ∈ dates ws).
Proof.
  unfold mark_cooked, dates. simpl. revert c.
  induction ws as [|s ws IH]; intros c; simpl.
  - split; [tauto|]. intros [?|[_ Hin]]; [done|]. by apply elem_of_nil in Hin.
  - rewrite IH, is_cooked_insert. destruct k as [k1 k2]. simpl. split.
    + intros [[[= -> ->]|?]|[-> Hin]]; [right|by left|right].
      * split; [done|left].
      * split; [done|by right].
    + intros [?|[-> Hin]]; [left; by right|].
      apply elem_of_cons in Hin as [->|Hin]; [left; by left|right; by split].
Qed.

Lemma marks_is_cooked (kvs : list (string * writeWorkloadSummary))
    (c : gmap (string * string) bool) (nm d : string) :
  is_cooked (foldl mark_cooked c kvs) (nm, d) = true ↔
  is_cooked c (nm, d) = true ∨ ∃ ws, (nm, ws) ∈ kvs ∧ d ∈ dates ws.
Proof.
  revert c. induction kvs as [|[nm' ws'] kvs IH]; intros c; simpl.
  - split; [tauto|]. intros [?|(ws & Hin & _)]; [done|].
    by apply elem_of_nil in Hin.
  - rewrite IH, mark_cooked_is_cooked. simpl. split.
    + intros [[?|[-> Hin]]|(ws & Hin & Hd)]; [by left|right..].
      * exists ws'. split; [left|done].
      * exists ws. split; [by right|done].
    + intros [?|(ws & Hin & Hd)]; [left; by left|].
      apply elem_of_cons in Hin as [[= -> ->]|Hin].
      * left. right. by split.
      * right. by exists ws.
Qed.

Lemma range_marks_is_cooked `{MapOrder} (m : gmap string writeWorkloadSummary)
    (nm d : string) :
  is_cooked (foldl mark_cooked ∅ (range m)) (nm, d) = true ↔
  ∃ ws, m !! nm = Some ws ∧ d ∈ dates ws.
Proof.
  rewrite marks_is_cooked. unfold is_cooked at 1. rewrite lookup_empty. simpl.
  split.
  - intros [?|(ws & Hin & Hd)]; [done|]. exists ws.
    split; [by apply range_elem_of|done].
  - intros (ws & Hin & Hd). right. exists ws.
    split; [by apply range_elem_of|done].
Qed.

Lemma loadCooked_inv `{Collaborators, MapOrder} (d s : string) (fs : fileSystem)
    (l1 : writeLoader) :
  loadCooked (newWriteLoader d s) fs = inr l1 →
  (filepath_Join s summaryFilename ∉ fs_unreadable fs) ∧
  dataDir l1 = d ∧ summaryDir l1 = s ∧ workloads l1 = ∅ ∧ cooked_matches l1.
Proof.
  unfold loadCooked, ReadFile. simpl.
  destruct (decide _) as [?|Hr]; [done|]. intros Hlc. split; [done|].
  revert Hlc. destruct (fs_files fs !! _) as [b|].
  - destruct (json_Unmarshal b) as [e|summaries]; [done|].
    intros [= <-]. simpl. do 3 (split; [done|]).
    intros nm dt Hc. simpl in *. by apply range_marks_is_cooked in Hc.
  - intros [= <-]. simpl. do 3 (split; [done|]).
    intros nm dt Hc. unfold is_cooked in Hc. simpl in Hc.
    by rewrite lookup_empty in Hc.
Qed.

Lemma dates_mixed_cooked (o : option writeWorkloadSummary)
    (ck : writeWorkloadSummary) (d : string) :
  d ∈ dates ck → d ∈ dates (mixed o ck).
Proof.
  intros Hd. destruct o as [new|]; [|done]. unfold mixed, dates, sort_by_Date.
  rewrite merge_sort_Permutation, fmap_app. apply elem_of_app. by right.
Qed.

Lemma dates_mixed_new (new ck : writeWorkloadSummary) (d : string) :
  d ∈ dates new → d ∈ dates (mixed (Some new) ck).
Proof.
  intros Hd. unfold mixed, dates, sort_by_Date.
  rewrite merge_sort_Permutation, fmap_app. apply elem_of_app. by left.
Qed.

(** Everything the first run cooked or added is in the summary it wrote. *)
Lemma summary_covers `{MapOrder} (l : writeLoader)
    (summary : gmap string writeWorkloadSummary) :
  tree_ok (workloads l) → tree_keyed (workloads l) → cooked_matches l →
  cookSummary_map l = Some summary →
  ∀ nm d, is_cooked (cooked l) (nm, d) = true ∨ has_day l nm d →
          ∃ ws, summary !! nm = Some ws ∧ d ∈ dates ws.
Proof.
  intros Hok Hkey Hm Hs nm d Hor.
  destruct (cookSummary_map_lookup l Hok Hkey) as (summary' & Hs' & Hlook).
  rewrite Hs in Hs'. injection Hs' as <-. rewrite Hlook.
  destruct Hor as [Hc|(w & Hw & Hd)].
  - destruct (Hm nm d Hc) as (ck & -> & Hin). eexists. split; [done|].
    by apply dates_mixed_cooked.
  - rewrite Hw. simpl.
    destruct (cookWriteSummary_ok w) as (new & Hnew & _ & _ & _ & Hdays).
    { by eapply tree_workload_ok. }
    apply Hdays in Hd. unfold new_of. rewrite Hnew. simpl.
    destruct (cookedSummaries l !! nm) as [ck|]; eexists; (split; [done|]);
      [by apply dates_mixed_new|done].
Qed.

Lemma range_empty `{MapOrder} {V} : range (∅ : gmap string V) = [].
Proof. apply Permutation_nil_r. by rewrite range_perm, map_to_list_empty. Qed.

Lemma mix_in_empty `{MapOrder} (m : gmap string writeWorkloadSummary) :
  foldl mix_in ∅ (range m) = m.
Proof.
  apply map_eq. intros k.
  rewrite mix_in_upsert, upsert_range_lookup, lookup_empty.
  by destruct (m !! k).
Qed.

(** The per-run files leave every other path, and what can be read or
    written, as they were. *)
Lemma write_runs_frame `{Collaborators, MapOrder} (l : writeLoader)
    (runs : list writeRun) (acc : option string * fileSystem) (path : string) :
  (∀ r, r ∈ runs →
        filepath_Join (summaryDir l) (writeRun_summaryFilename r) ≠ path) →
  fs_files (foldl (write_run_step l) acc runs).2 !! path = fs_files acc.2 !! path ∧
  fs_unreadable (foldl (write_run_step l) acc runs).2 = fs_unreadable acc.2 ∧
  fs_unwritable (foldl (write_run_step l) acc runs).2 = fs_unwritable acc.2.
Proof.
  revert acc. induction runs as [|r runs IH]; intros acc Hne; [done|].
  simpl. destruct (IH (write_run_step l acc r)) as (Hf & Hr & Hw).
  { intros r' Hr'. apply Hne. by right. }
  rewrite Hf, Hr, Hw. unfold write_run_step.
  destruct acc.1; [done|]. unfold outputWriteRunSummary, WriteFile.
  destruct (decide _); [done|]. simpl.
  rewrite lookup_insert_ne; [done|]. apply Hne. left.
Qed.

Section Rerun.
Context `{Collaborators}.

(** What a successful invocation went through. *)
Lemma parseWrite_Done_inv `{MapOrder} (dDir sDir : string)
    (t : dataTree) (fs fs' : fileSystem) (d : list diag) :
  parseWrite dDir sDir t fs = (Done, fs', d) →
  ∃ l1 l2 summary fsA,
    loadCooked (newWriteLoader dDir sDir) fs = inr l1 ∧
    foldl walk_step (l1, []) (t_files t) = (l2, d) ∧
    t_walkErr t = None ∧
    cookSummary_map l2 = Some summary ∧
    WriteFile fs (filepath_Join (summaryDir l2) summaryFilename)
      (prettyJSON_summaries summary +:+ nl) = inr fsA ∧
    cookWriteRunSummaries l2 fsA = (None, fs').
Proof.
  intros Hrun. unfold parseWrite, loadRaw, cookSummary in Hrun.
  destruct (loadCooked _ fs) as [e|l1] eqn:Hl; [done|].
  destruct (foldl walk_step (l1, []) (t_files t)) as [l2 dd] eqn:Hf.
  destruct (t_walkErr t) eqn:Ht; [done|].
  destruct (cookSummary_map l2) as [summary|] eqn:Hs; [|done]. simpl in Hrun.
  destruct (WriteFile fs _ _) as [e|fsA] eqn:Hw; [done|].
  destruct (cookWriteRunSummaries l2 fsA) as [[e|] fs2] eqn:Hc; [done|].
  injection Hrun as <- <-. by exists l1, l2, summary, fsA.
Qed.

Lemma parseWrite_Done_intro `{MapOrder} (dDir sDir : string)
    (t : dataTree) (fs fs' fsA : fileSystem) (d : list diag)
    (l1 l2 : writeLoader) (summary : gmap string writeWorkloadSummary) :
  loadCooked (newWriteLoader dDir sDir) fs = inr l1 →
  foldl walk_step (l1, []) (t_files t) = (l2, d) →
  t_walkErr t = None →
  cookSummary_map l2 = Some summary →
  WriteFile fs (filepath_Join (summaryDir l2) summaryFilename)
    (prettyJSON_summaries summary +:+ nl) = inr fsA →
  cookWriteRunSummaries l2 fsA = (None, fs') →
  parseWrite dDir sDir t fs = (Done, fs', d).
Proof.
  intros Hl Hf Ht Hs Hw Hc. unfold parseWrite, loadRaw, cookSummary.
  rewrite Hl, Hf, Ht, Hs. simpl. by rewrite Hw, Hc.
Qed.

(** C3.  Let an invocation over the data directory [t] end successfully
    and leave the output directory [fs1], with [summary] the top-level
    summary it wrote; let decoding the bytes written for [summary] give
    [summary] back, and let no per-run file share the path of the
    top-level summary.  Then a second invocation over the same [t],
    starting from [fs1], ends successfully and leaves [fs1] as it is, so
    the top-level and the per-run artifacts are byte-identical; it adds
    no run to the tree, every file that contributed a run the first time
    is reported as skipped, and the summary it writes is the loaded one,
    unchanged. *)
Theorem rerun_identical (O1 O2 : MapOrder) (dDir sDir : string)
    (t : dataTree) (fs0 fs1 : fileSystem) (d1 : list diag) (l : writeLoader)
    (summary : gmap string writeWorkloadSummary) :
  @parseWrite _ O1 dDir sDir t fs0 = (Done, fs1, d1) →
  @loaded _ O1 dDir sDir t fs0 = Some l →
  @cookSummary_map O1 l = Some summary →
  json_Unmarshal (prettyJSON_summaries summary +:+ nl) = inr summary →
  (∀ r, r ∈ @all_runs O1 l →
        filepath_Join sDir (writeRun_summaryFilename r)
        ≠ filepath_Join sDir summaryFilename) →
  ∃ l' d2,
    @parseWrite _ O2 dDir sDir t fs1 = (Done, fs1, d2) ∧
    @loaded _ O2 dDir sDir t fs1 = Some l' ∧
    workloads l' = ∅ ∧ cookedSummaries l' = summary ∧
    @cookSummary_map O2 l' = Some summary ∧
    (∀ nm day n path, DiagAdd nm day n path ∉ d2) ∧
    (∀ nm day n path, DiagAdd nm day n path ∈ d1 →
                      ∃ nm', DiagSkip path nm' day ∈ d2).
Proof.
  intros Hrun Hl Hs Hrt Hpaths.
  destruct (parseWrite_Done_inv _ _ _ _ _ _ Hrun)
    as (l1 & l2 & summary' & fsA & Hlc & Hfold & Hwalk & Hs' & Hw & Hc).
  unfold loaded in Hl. rewrite Hlc in Hl. unfold loadRaw in Hl.
  rewrite Hfold in Hl. simpl in Hl. injection Hl as <-.
  rewrite Hs in Hs'. injection Hs' as <-.
  destruct (@loadCooked_inv _ O1 _ _ _ _ Hlc) as (Hread & Hdd & Hsd & Hws & Hm).
  pose proof (walk_steps_fields (t_files t) l1 []) as (Hck2 & Hcs2 & Hsd2 & Hdd2).
  rewrite Hfold in Hck2, Hcs2, Hsd2, Hdd2. simpl in Hck2, Hcs2, Hsd2, Hdd2.
  assert (built l2) as Hbuilt.
  { pose proof (walk_steps_built (t_files t) l1 []) as Hb.
    rewrite Hfold in Hb. apply Hb. destruct l1; simpl in *; subst.
    apply built_new. }
  (* the output directory after the first run *)
  set (path := filepath_Join sDir summaryFilename) in *.
  set (doc := prettyJSON_summaries summary +:+ nl) in *.
  rewrite Hsd2, Hsd in Hw.
  assert ((path ∉ fs_unwritable fs0) ∧
          fsA = mkFS (<[path := doc]> (fs_files fs0)) (fs_unreadable fs0)
                  (fs_unwritable fs0)) as [Hwr ->].
  { unfold WriteFile in Hw. destruct (decide _); [done|].
    split; [done|]. by injection Hw. }
  destruct (@write_runs_frame _ O1 l2 (@all_runs O1 l2)
              (None, mkFS (<[path := doc]> (fs_files fs0)) (fs_unreadable fs0)
                       (fs_unwritable fs0)) path)
    as (Hf1 & Hr1 & Hw1).
  { intros r Hr. rewrite Hsd2, Hsd. by apply Hpaths. }
  unfold cookWriteRunSummaries in Hc. rewrite Hc in Hf1, Hr1, Hw1.
  simpl in Hf1, Hr1, Hw1. rewrite lookup_insert_eq in Hf1.
  (* the load phase of the second run *)
  set (l1' := mkLoader dDir sDir ∅
                (foldl mark_cooked ∅ (@range O2 _ summary)) summary).
  assert (@loadCooked _ O2 (newWriteLoader dDir sDir) fs1 = inr l1')
    as Hlc'.
  { unfold loadCooked, ReadFile. simpl. fold path. rewrite Hr1.
    destruct (decide _); [done|]. by rewrite Hf1, Hrt. }
  (* the ingestion of the second run *)
  pose proof (built_tree_ok l2 Hbuilt) as Hok.
  pose proof (built_tree_keyed l2 Hbuilt) as Hkey.
  assert (cooked_matches l2) as Hm2.
  { intros nm d Hcd. rewrite Hck2 in Hcd. rewrite Hcs2. by apply Hm. }
  pose proof (@summary_covers O1 l2 summary Hok Hkey Hm2 Hs) as Hcover.
  destruct (walk_steps_rerun (t_files t) l1 l1' [] []) as (d2 & Hfold' & Hno & Hskip).
  { intros [nm d] Hcd. simpl. apply (@range_marks_is_cooked O2).
    apply Hcover. left. by rewrite Hck2. }
  { intros nm day Hd. simpl. apply (@range_marks_is_cooked O2).
    apply Hcover. right. by rewrite Hfold in Hd. }
  rewrite Hfold in Hskip. simpl in Hfold', Hskip.
  (* the merge and the emission of the second run *)
  assert (@cookSummary_map O2 l1' = Some summary) as Hs2.
  { unfold cookSummary_map. simpl. rewrite (@range_empty O2). simpl.
    by rewrite (@mix_in_empty O2). }
  exists l1', d2. split; [|split; [|split; [done|split; [done|split; [done|split]]]]].
  - apply (@parseWrite_Done_intro O2 dDir sDir t fs1 fs1 fs1 d2 l1' l1' summary);
      [exact Hlc'|exact Hfold'|exact Hwalk|exact Hs2| |].
    + simpl. fold path doc. unfold WriteFile.
      destruct (decide _) as [Hin|_]; [by rewrite Hw1 in Hin|]. f_equal.
      destruct fs1 as [files ur uw]. simpl in *. f_equal.
      by apply insert_id.
    + unfold cookWriteRunSummaries, all_runs. simpl.
      by rewrite (@range_empty O2).
  - unfold loaded, loadRaw. by rewrite Hlc', Hfold'.
  - done.
  - intros nm day n p Hin. destruct (Hskip nm day n p Hin) as [Hnil|Hsk]; [|done].
    by apply elem_of_nil in Hnil.
Qed.

End Rerun.

Lemma rerun_identical_witness :
  first_run.1.1 = Done ∧
  ∃ d2, @parseWrite demo1 reverse_order "data" "out" example_tree first_run.1.2
          = (Done, first_run.1.2, d2) ∧
        ∃ n, DiagSkip example_path n "20230101" ∈ d2.
Proof.
  split; [vm_compute; reflexivity|].
  destruct (@rerun_identical demo1 canonical_order reverse_order "data" "out"
              example_tree empty_fs first_run.1.2 first_run.2 first_loader
              first_summary)
    as (l' & d2 & Hrun2 & _ & _ & _ & _ & _ & Hskip).
  - vm_compute. reflexivity.
  - vm_compute. reflexivity.
  - vm_compute. reflexivity.
  - vm_compute. reflexivity.
  - intros r Hr.
    assert (Hall : @all_runs canonical_order first_loader = [first_tree_run])
      by (vm_compute; reflexivity).
    rewrite Hall in Hr. apply list_elem_of_singleton in Hr. rewrite Hr.
    vm_compute. discriminate.
  - exists d2. split; [exact Hrun2|].
    apply (Hskip "values=1024" "20230101" 1%nat example_path).
    vm_compute. right. left.
Defined.

(** * Further properties *)

(** ** The memo and the partition of the reducer *)

(** X1.  The memo of [opsPerSecSplit] is transparent: the call leaves the
    samples alone, a second call on the receiver it left behind returns
    the same split and changes nothing more; a positive result is stored
    in the memo, and a positive memo is returned as it is, without a look
    at the samples. *)
Theorem opsPerSecSplit_memo (r : rawWriteRun) :
  let t := (opsPerSecSplit r).1 in
  let r' := (opsPerSecSplit r).2 in
  points r' = points r ∧
  opsPerSecSplit r' = (t, r') ∧
  (0 < t → split r' = t) ∧
  (0 < split r → t = split r ∧ r' = r).
Proof.
  cbv zeta. destruct (decide (0 < split r)) as [Hpos|Hneg].
  - assert (opsPerSecSplit r = (split r, r)) as ->.
    { unfold opsPerSecSplit. by destruct (decide _). }
    simpl. split; [done|]. split; [|done].
    unfold opsPerSecSplit. by destruct (decide _).
  - set (s := Split.findOptimalSplit (passing r) (failing r)).
    assert (opsPerSecSplit r = (s, mkRaw (points r) s)) as ->.
    { unfold opsPerSecSplit. destruct (decide _); [done|].
      by rewrite partition_points_spec. }
    simpl. split; [done|]. split; [|split; [done|lia]].
    unfold opsPerSecSplit. simpl. destruct (decide _); [done|].
    by rewrite (partition_points_spec r).
Qed.

(** X2.  The partitioning loop of [opsPerSecSplit] keeps the sample order
    within the passing and within the failing values and loses no sample:
    the two sequences together are a rearrangement of all ops/sec values. *)
Theorem partition_points_complete (ps : list writePoint) :
  (partition_points ps).1 = opsSec <$> filter (λ p, passed p = true) ps ∧
  (partition_points ps).2 = opsSec <$> filter (λ p, passed p = false) ps ∧
  (partition_points ps).1 ++ (partition_points ps).2 ≡ₚ opsSec <$> ps.
Proof.
  unfold partition_points. rewrite partition_points_acc. simpl.
  split; [done|]. split; [done|].
  induction ps as [|p ps IH]; [done|].
  rewrite !filter_cons, fmap_cons.
  destruct (passed p); repeat case_decide; try done; rewrite ?fmap_cons; simpl.
  - by rewrite IH.
  - rewrite <- Permutation_middle. by rewrite IH.
Qed.

Lemma opsPerSecSplit_memo_witness :
  opsPerSecSplit (opsPerSecSplit mixed_run).2 = (100, mkRaw (points mixed_run) 100).
Proof.
  destruct (opsPerSecSplit_memo mixed_run) as (_ & Hagain & _).
  rewrite Hagain. vm_compute. reflexivity.
Defined.

(** ** When [summarize] returns *)

Lemma summarize_loop_None (kvs : list (string * rawWriteRun)) :
  foldl summarize_step None kvs = None.
Proof. induction kvs as [|kv kvs IH]; [done|]. simpl. apply IH. Qed.

Lemma summarize_loop_Some (kvs : list (string * rawWriteRun)) (acc res : Z * float) :
  foldl summarize_step (Some acc) kvs = Some res →
  Forall (λ kv, points kv.2 ≠ []) kvs.
Proof.
  revert acc. induction kvs as [|kv kvs IH]; intros [a b] Hf; [constructor|].
  simpl in Hf. destruct (decide (points kv.2 = [])) as [Hp|Hp].
  - rewrite (writeAmp_final_None _ Hp) in Hf. simpl in Hf.
    by rewrite summarize_loop_None in Hf.
  - constructor; [done|]. rewrite (writeAmp_final_Some _ Hp) in Hf.
    simpl in Hf. by eapply IH.
Qed.

Lemma summarize_Some_run_ok `{MapOrder} (r : writeRun) :
  is_Some (summarize r) ↔ run_ok r.
Proof.
  split; [|intros Hok; by rewrite summarize_ok].
  intros [s Hs]. unfold summarize in Hs.
  destruct (foldl summarize_step _ _) as [[a b]|] eqn:Hfold; [|done].
  simpl in Hs. destruct (decide _) as [|Hn]; [done|]. split.
  - intros Hempty. apply Hn. by rewrite Hempty, map_size_empty.
  - intros f raw Hf. apply summarize_loop_Some in Hfold.
    rewrite Forall_forall in Hfold.
    by apply (Hfold (f, raw)), range_elem_of.
Qed.



(** ** The order in which a map is walked *)

(** X4.  Whichever way [range] walks the worker-runs of a run, [summarize]
    panics or returns alike, its summaries agree on the name, the date,
    the ops/sec and the summary path, and the map of the per-run detail
    artifact is the same.  The write amplification is a floating point
    sum taken in the order of the walk and can differ: three workers at
    1.779, 1.636 and 1.91 average to 1.77 in one order and to 1.78 in the
    opposite one. *)
Theorem summarize_order (O1 O2 : MapOrder) (r : writeRun) :
  (is_Some (@summarize O1 r) ↔ is_Some (@summarize O2 r)) ∧
  (∀ s1 s2, @summarize O1 r = Some s1 → @summarize O2 r = Some s2 →
     Name s1 = Name s2 ∧ Date s1 = Date s2 ∧ OpsSec s1 = OpsSec s2 ∧
     SummaryPath s1 = SummaryPath s2) ∧
  @formatSummary_map O1 r = @formatSummary_map O2 r ∧
  (fmt_f2 ∘ WriteAmp) <$> @summarize canonical_order three_worker_run = Some "1.77" ∧
  (fmt_f2 ∘ WriteAmp) <$> @summarize reverse_order three_worker_run = Some "1.78".
Proof.
  split; [by rewrite !summarize_Some_run_ok|].
  split; [|split; [by rewrite !formatSummary_map_fmap|split; vm_compute; reflexivity]].
  intros s1 s2 H1 H2.
  assert (run_ok r) as Hok by (apply (@summarize_Some_run_ok O1); by rewrite H1).
  rewrite (@summarize_ok O1 r Hok) in H1. rewrite (@summarize_ok O2 r Hok) in H2.
  injection H1 as <-. injection H2 as <-. done.
Qed.

Lemma summarize_order_witness :
  OpsSec <$> @summarize canonical_order three_worker_run
  = OpsSec <$> @summarize reverse_order three_worker_run.
Proof.
  destruct (summarize_order canonical_order reverse_order three_worker_run)
    as (_ & Hsame & _).
  destruct (@summarize canonical_order three_worker_run) as [s1|] eqn:H1;
    destruct (@summarize reverse_order three_worker_run) as [s2|] eqn:H2;
    try (vm_compute in H1; discriminate H1);
    try (vm_compute in H2; discriminate H2).
  simpl. f_equal. by destruct (Hsame s1 s2 eq_refl eq_refl) as (_ & _ & ? & _).
Defined.

(** ** What the scanning loop collects *)

Section Samples.
Context `{Collaborators}.
Implicit Types (ck : gmap (string * string) bool) (r : rawWriteRun).

Lemma line_sample_unscanned line :
  ¬ (is_record line ∧ scan_ok line) → line_sample line = None.
Proof.
  unfold line_sample, is_record, scan_ok. intros Hno.
  destruct (decide _); [|done]. exfalso. tauto.
Qed.

Lemma line_sample_scanned line :
  is_record line → scan_ok line → line_sample line = sample_of line.
Proof.
  unfold line_sample, is_record, scan_ok. intros Hr [He Hn].
  destruct (decide _); [done|]. exfalso. tauto.
Qed.

(** One line that does not end the file appends its sample, if it has one. *)
Lemma scanLine_points ck day pathRel r nm line r1 nm1 d1 :
  scanLine ck day pathRel r nm line = (Continue r1 nm1, d1) →
  points r1 = points r ++ option_list (line_sample line) ∧ split r1 = split r.
Proof.
  intros Hstep.
  destruct (decide (is_record line)) as [Hrec|Hrec].
  2:{ rewrite scanLine_noise in Hstep by done. simplify_eq.
      rewrite line_sample_unscanned by tauto. by rewrite app_nil_r. }
  destruct (scan_ok_or_fails line) as [Hok|Hf].
  2:{ rewrite scanLine_scan_fails in Hstep by done. simplify_eq.
      rewrite line_sample_unscanned; [by rewrite app_nil_r|].
      intros [_ [He Hn]]. by destruct Hf. }
  rewrite line_sample_scanned by done. unfold sample_of.
  destruct (decide (nm = "")) as [->|Hnm].
  - destruct (is_cooked ck (sc_name (Sscanf line), day)) eqn:Hck.
    { by rewrite scanLine_cooked in Hstep. }
    rewrite scanLine_first in Hstep by done.
    destruct (ParseDuration _); simplify_eq; simpl; by rewrite ?app_nil_r.
  - rewrite scanLine_later in Hstep by done. cbv zeta in Hstep.
    destruct (ParseDuration _); simplify_eq; simpl; by rewrite ?app_nil_r.
Qed.

(** X5.  When the scanning loop reaches the end of a file, the run it
    hands to [addRawRun] holds, after the samples it started with, exactly
    the samples of the record lines that scan and convert, in the order
    of the lines; its memo is untouched. *)
Theorem scanLines_samples ck day pathRel r nm lines r' nm' d :
  scanLines ck day pathRel r nm lines = (Some (r', nm'), d) →
  points r' = points r ++ file_samples lines ∧ split r' = split r.
Proof.
  unfold file_samples. revert r nm d.
  induction lines as [|line lines IH]; intros r nm d Hs.
  { simplify_eq/=. by rewrite app_nil_r. }
  simpl in Hs.
  destruct (scanLine ck day pathRel r nm line) as [[r1 nm1|] d1] eqn:Hstep; [|done].
  destruct (scanLines ck day pathRel r1 nm1 lines) as [[[r2 nm2]|] d2] eqn:Hrest;
    [|done].
  simplify_eq. destruct (IH _ _ _ Hrest) as [Hp Hsp].
  destruct (scanLine_points _ _ _ _ _ _ _ _ _ Hstep) as [Hp1 Hsp1].
  split; [|congruence]. rewrite Hp, Hp1, <- app_assoc. f_equal.
  simpl. by destruct (line_sample line).
Qed.

End Samples.

Lemma scanLines_samples_witness :
  ∃ r d, @scanLines (demo []) ∅ "20230101" example_path rawWriteRun_zero ""
           [line_good; line_bad_duration; line_noise; line_other_name]
         = (Some (r, "values=1024"), d) ∧
         opsSec <$> points r = [1000; 1100].
Proof.
  destruct (@scanLines (demo []) ∅ "20230101" example_path rawWriteRun_zero ""
              [line_good; line_bad_duration; line_noise; line_other_name])
    as [[[r nm]|] d] eqn:Hs; [|vm_compute in Hs; discriminate Hs].
  assert (nm = "values=1024") as ->.
  { assert (Hn : (λ res, snd <$> res.1)
                   (@scanLines (demo []) ∅ "20230101" example_path
                      rawWriteRun_zero ""
                      [line_good; line_bad_duration; line_noise; line_other_name])
                 = Some "values=1024") by (vm_compute; reflexivity).
    rewrite Hs in Hn. simpl in Hn. by injection Hn. }
  exists r, d. split; [reflexivity|].
  destruct (@scanLines_samples (demo []) _ _ _ _ _ _ _ _ _ Hs) as [Hp _].
  rewrite Hp. vm_compute. reflexivity.
Defined.

(** ** What the ingestion keeps true of the tree *)

Section Ingest.
Context `{Collaborators}.

(** A file that reached [addRawRun] with samples is not for a cooked
    (workload, day). *)
Lemma scanLines_not_cooked ck day pathRel lines r nm d :
  scanLines ck day pathRel rawWriteRun_zero "" lines = (Some (r, nm), d) →
  points r ≠ [] → is_cooked ck (nm, day) = false.
Proof.
  intros Hs Hp. destruct (is_cooked ck (nm, day)) eqn:Hck; [|done]. exfalso.
  assert (is_Some (first_scanned_name lines)) as Hfirst.
  { destruct (first_scanned_name lines) eqn:Hn; [done|].
    destruct (scanLines_unscanned ck day pathRel rawWriteRun_zero "" lines Hn)
      as [d0 Hd0]. rewrite Hd0 in Hs. by simplify_eq. }
  destruct (scanLines_skip ck ck day pathRel rawWriteRun_zero lines r nm d)
    as [d' Hd']; [by intros k|done..|]. congruence.
Qed.

Lemma from_files_mono (files files' : list rawFile) path raw :
  files ⊆ files' → from_files files path raw → from_files files' path raw.
Proof.
  intros Hsub (f & lines & Hin & ?). exists f, lines. split; [by apply Hsub|done].
Qed.

Lemma run_inv_mono (files files' : list rawFile) ck nm day r :
  files ⊆ files' → run_inv files ck nm day r → run_inv files' ck nm day r.
Proof.
  intros Hsub (Hn & Hd & Hc & Hdir & Hall). do 4 (split; [done|]).
  intros p raw Hp. destruct (Hall p raw Hp) as (? & ? & ? & Hfrom).
  do 3 (split; [done|]). by eapply from_files_mono.
Qed.

(** [addRawRun] on what a well-shaped, uncooked file yields. *)
Lemma addRawRun_tree_inv (files : list rawFile) (l : writeLoader)
    (nm day path : string) (raw : rawWriteRun) :
  tree_inv files l →
  (points raw ≠ [] →
   is_cooked (cooked l) (nm, day) = false ∧ accepted_path path ∧
   path_day path = day ∧ from_files files path raw) →
  tree_inv files (addRawRun l nm day path raw).1.
Proof.
  intros Hinv Hnew. destruct (decide (points raw = [])) as [Hp|Hp].
  { by rewrite addRawRun_empty. }
  destruct (Hnew Hp) as (Hck & Hacc & Hday & Hfrom).
  intros nm' w' day' r' Hw' Hr'.
  destruct (addRawRun_fields l nm day path raw) as (-> & _).
  destruct (addRawRun_lookup _ _ _ _ _ _ _ _ _ Hp Hw' Hr')
    as [(-> & -> & r0 & -> & Hr0)|(w & Hw & Hr)]; [|by eapply Hinv].
  destruct Hr0 as [(w & Hw & Hr)| ->].
  - destruct (Hinv _ _ _ _ Hw Hr) as (Hn & Hd & Hc & (p0 & Hp0 & Hdir) & Hall).
    simpl. do 3 (split; [done|]). split.
    + exists p0. split; [|done]. simpl.
      destruct (decide (p0 = path)) as [->|Hne].
      * by rewrite lookup_insert_eq.
      * by rewrite lookup_insert_ne.
    + simpl. intros p raw' Hp'. destruct (decide (p = path)) as [->|Hne].
      * rewrite lookup_insert_eq in Hp'. by simplify_eq.
      * rewrite lookup_insert_ne in Hp' by done. by apply Hall.
  - simpl. do 3 (split; [done|]). split.
    + exists path. simpl. rewrite lookup_insert_eq. by split.
    + simpl. intros p raw' Hp'. destruct (decide (p = path)) as [->|Hne].
      * rewrite lookup_insert_eq in Hp'. by simplify_eq.
      * rewrite lookup_insert_ne in Hp' by done.
        by rewrite lookup_empty in Hp'.
Qed.

Lemma walkFn_tree_inv (files : list rawFile) (l : writeLoader) (f : rawFile) :
  tree_inv files l → tree_inv (files ++ [f]) (walkFn l f).1.
Proof.
  intros Hinv.
  assert (tree_inv (files ++ [f]) l) as Hinv'.
  { intros nm w day r Hw Hr. eapply run_inv_mono; [|by eapply Hinv].
    intros x Hx. apply elem_of_app. by left. }
  unfold walkFn. destruct (decide _) as [|Hlen]; [done|].
  destruct (decide _) as [|Hw]; [done|].
  destruct (f_body f) as [e|e|lines] eqn:Hbody; [done..|].
  fold (path_day (f_pathRel f)).
  destruct (scanLines _ _ _ _ _ _) as [[[r nm]|] d] eqn:Hs; [|done].
  pose proof (addRawRun_tree_inv (files ++ [f]) l nm (path_day (f_pathRel f))
                (f_pathRel f) r Hinv') as Hadd.
  destruct (addRawRun l nm _ _ r) as [l1 d1]. simpl in *. apply Hadd.
  intros Hp. split; [by eapply scanLines_not_cooked|].
  split; [split; [lia|]; by apply dec_stable|]. split; [done|].
  exists f, lines. split; [apply elem_of_app; right; left|].
  do 2 (split; [done|]).
  destruct (scanLines_samples _ _ _ _ _ _ _ _ _ Hs) as [Hpts Hsp].
  destruct r as [pts sp]. simpl in *. by subst.
Qed.

Lemma walk_steps_tree_inv (files seen : list rawFile) (l : writeLoader)
    (d : list diag) :
  tree_inv seen l → tree_inv (seen ++ files) (foldl walk_step (l, d) files).1.
Proof.
  revert seen l d. induction files as [|f files IH]; intros seen l d Hinv.
  { by rewrite app_nil_r. }
  simpl. unfold walk_step at 2. simpl.
  pose proof (walkFn_tree_inv seen l f Hinv) as Hstep.
  destruct (walkFn l f) as [l1 d1].
  replace (seen ++ f :: files) with ((seen ++ [f]) ++ files)
    by (by rewrite <- app_assoc).
  by apply IH.
Qed.

Lemma loaded_tree_inv `{MapOrder} (dDir sDir : string) (t : dataTree)
    (fs : fileSystem) (l : writeLoader) :
  loaded dDir sDir t fs = Some l → tree_inv (t_files t) l.
Proof.
  unfold loaded, loadRaw. destruct (loadCooked _ fs) as [e|l1] eqn:Hlc; [done|].
  destruct (loadCooked_inv _ _ _ _ Hlc) as (_ & _ & _ & Hws & _).
  pose proof (walk_steps_tree_inv (t_files t) [] l1 []) as Hinv.
  destruct (foldl walk_step (l1, []) (t_files t)) as [l2 d]. simpl in *.
  intros [= <-]. apply Hinv. intros nm w day r Hw. rewrite Hws in Hw.
  by rewrite lookup_empty in Hw.
Qed.

End Ingest.

Section Loaded.
Context `{Collaborators, MapOrder}.

Lemma loaded_inv (dDir sDir : string) (t : dataTree) (fs : fileSystem)
    (l : writeLoader) :
  loaded dDir sDir t fs = Some l →
  ∃ l1, loadCooked (newWriteLoader dDir sDir) fs = inr l1 ∧
        cooked l = cooked l1 ∧ cookedSummaries l = cookedSummaries l1 ∧
        summaryDir l = sDir ∧ dataDir l = dDir ∧ built l.
Proof.
  unfold loaded, loadRaw. destruct (loadCooked _ fs) as [e|l1] eqn:Hlc; [done|].
  destruct (loadCooked_inv _ _ _ _ Hlc) as (_ & Hd & Hs & Hws & _).
  pose proof (walk_steps_fields (t_files t) l1 []) as (Hc & Hcs & Hsd & Hdd).
  pose proof (walk_steps_built (t_files t) l1 []) as Hb.
  destruct (foldl walk_step (l1, []) (t_files t)) as [l2 d]. simpl in *.
  intros [= <-]. exists l1. split; [done|]. do 2 (split; [done|]).
  split; [congruence|]. split; [congruence|]. apply Hb.
  destruct l1; simpl in *; subst. apply built_new.
Qed.

(** X6.  After the ingestion every run of the tree carries the workload
    name and the day it is filed under, its directory is the directory of
    one of its files, and each of its files has a relative path of the
    accepted shape ([day/pebble/write/...], six components or more) that
    starts with the day of the run. *)
Theorem loaded_runs_keyed (dDir sDir : string) (t : dataTree) (fs : fileSystem)
    (l : writeLoader) (nm day : string) (w : writeWorkload) (r : writeRun) :
  loaded dDir sDir t fs = Some l →
  workloads l !! nm = Some w → days w !! day = Some r →
  name r = nm ∧ date r = day ∧
  (∃ p0, is_Some (rawRuns r !! p0) ∧ dir r = filepath_Dir p0) ∧
  ∀ p raw, rawRuns r !! p = Some raw → accepted_path p ∧ path_day p = day.
Proof.
  intros Hl Hw Hr.
  destruct (loaded_tree_inv _ _ _ _ _ Hl nm w day r Hw Hr)
    as (Hn & Hd & _ & Hdir & Hall).
  do 3 (split; [done|]). intros p raw Hp.
  by destruct (Hall p raw Hp) as (_ & ? & ? & _).
Qed.

(** X7.  Every worker-run of the tree after the ingestion is what a file
    of the data directory with that relative path yields: its samples are
    the samples of the file's lines, in order, there is at least one, and
    its memo is unset, so its representative throughput is computed from
    the samples. *)
Theorem loaded_worker_runs (dDir sDir : string) (t : dataTree) (fs : fileSystem)
    (l : writeLoader) (nm day path : string) (raw : rawWriteRun) :
  loaded dDir sDir t fs = Some l → stored l nm day path raw →
  ∃ f lines,
    f ∈ t_files t ∧ f_pathRel f = path ∧ f_body f = Body lines ∧
    raw = mkRaw (file_samples lines) 0 ∧ file_samples lines ≠ [] ∧
    split_of raw = Split.findOptimalSplit (passing raw) (failing raw).
Proof.
  intros Hl (w & r & Hw & Hr & Hp).
  destruct (loaded_tree_inv _ _ _ _ _ Hl nm w day r Hw Hr)
    as (_ & _ & _ & _ & Hall).
  destruct (Hall path raw Hp) as (Hne & _ & _ & f & lines & Hin & Hpath & Hb & ->).
  exists f, lines. do 4 (split; [done|]). split; [done|].
  by apply opsPerSecSplit_fresh.
Qed.

End Loaded.

Lemma second_loader_loaded :
  @loaded demo1 canonical_order "data" "out" second_tree first_run.1.2
  = Some second_loader.
Proof. vm_compute. reflexivity. Defined.

Lemma second_loader_stored :
  stored second_loader "values=1024" "20230102" second_path
    (mkRaw (@file_samples demo1 [line_good; line_other_name]) 0).
Proof.
  exists (default (mkWorkload ∅) (workloads second_loader !! "values=1024")),
         (default no_worker_run
            (days (default (mkWorkload ∅) (workloads second_loader !! "values=1024"))
               !! "20230102")).
  repeat split; vm_compute; reflexivity.
Defined.

Lemma loaded_runs_keyed_witness :
  ∃ w r, workloads second_loader !! "values=1024" = Some w ∧
         days w !! "20230102" = Some r ∧
         name r = "values=1024" ∧ date r = "20230102".
Proof.
  destruct second_loader_stored as (w & r & Hw & Hr & _).
  exists w, r. do 2 (split; [assumption|]).
  destruct (@loaded_runs_keyed demo1 canonical_order _ _ _ _ _ _ _ _ _
              second_loader_loaded Hw Hr) as (Hn & Hd & _).
  split; assumption.
Defined.

Lemma loaded_worker_runs_witness :
  ∃ f, f ∈ t_files second_tree ∧ f_pathRel f = second_path.
Proof.
  destruct (@loaded_worker_runs demo1 canonical_order _ _ _ _ _ _ _ _ _
              second_loader_loaded second_loader_stored)
    as (f & lines & Hin & Hp & _).
  exists f. split; assumption.
Defined.

Section Cooked.
Context `{Collaborators, MapOrder}.

(** X8.  When the top-level summary file is there and decodes, [loadCooked]
    keeps the decoded summaries, leaves the tree empty, and marks as
    cooked exactly the (workload, date) pairs that occur in them; a file
    that cannot be read for another reason than its absence is an error. *)
Theorem loadCooked_populates (dDir sDir : string) (fs : fileSystem) :
  (∀ b summaries,
     ReadFile fs (filepath_Join sDir summaryFilename) = ReadBytes b →
     json_Unmarshal b = inr summaries →
     ∃ l, loadCooked (newWriteLoader dDir sDir) fs = inr l ∧
          cookedSummaries l = summaries ∧ workloads l = ∅ ∧
          ∀ nm dt, is_cooked (cooked l) (nm, dt) = true ↔
                   ∃ ws, summaries !! nm = Some ws ∧ dt ∈ dates ws) ∧
  (∀ e, ReadFile fs (filepath_Join sDir summaryFilename) = ReadFails e →
        loadCooked (newWriteLoader dDir sDir) fs = inl e).
Proof.
  split.
  - intros b summaries Hr Hj. unfold loadCooked. simpl. rewrite Hr, Hj.
    eexists. split; [done|]. simpl. do 2 (split; [done|]).
    intros nm dt. apply range_marks_is_cooked.
  - intros e Hr. unfold loadCooked. simpl. by rewrite Hr.
Qed.

(** After the load phase, and through the ingestion, the cooked set and
    the cooked summaries say the same. *)
Lemma loaded_cooked_iff (dDir sDir : string) (t : dataTree) (fs : fileSystem)
    (l : writeLoader) :
  loaded dDir sDir t fs = Some l →
  ∀ nm dt, is_cooked (cooked l) (nm, dt) = true ↔
           ∃ ws, cookedSummaries l !! nm = Some ws ∧ dt ∈ dates ws.
Proof.
  intros Hl. destruct (loaded_inv _ _ _ _ _ Hl) as (l1 & Hlc & -> & -> & _).
  unfold loadCooked, ReadFile in Hlc. simpl in Hlc.
  destruct (decide _); [done|]. destruct (fs_files fs !! _) as [b|].
  - destruct (json_Unmarshal b) as [e|summaries]; [done|]. simplify_eq. simpl.
    intros nm dt. apply range_marks_is_cooked.
  - simplify_eq. simpl. intros nm dt. unfold is_cooked.
    rewrite !lookup_empty. simpl. split; [done|]. by intros (ws & ? & _).
Qed.

Lemma loaded_fresh_days (dDir sDir : string) (t : dataTree)
    (fs : fileSystem) (l : writeLoader) (nm day : string) :
  loaded dDir sDir t fs = Some l → has_day l nm day →
  is_cooked (cooked l) (nm, day) = false ∧
  ∀ ck, cookedSummaries l !! nm = Some ck → day ∉ dates ck.
Proof.
  intros Hl (w & Hw & [r Hr]).
  destruct (loaded_tree_inv _ _ _ _ _ Hl nm w day r Hw Hr) as (_ & _ & Hc & _).
  split; [done|]. intros ck Hck Hin.
  assert (is_cooked (cooked l) (nm, day) = true) as Ht.
  { apply (loaded_cooked_iff _ _ _ _ _ Hl). by exists ck. }
  congruence.
Qed.

(** X9.  The filter of the ingestion keeps new and cooked data apart: a
    (workload, day) that has a run in the tree after the ingestion is not
    in the cooked set, and no cooked summary of that workload has that
    date. *)
Theorem loaded_apart_from_cooked (dDir sDir : string) (t : dataTree)
    (fs : fileSystem) (l : writeLoader) (nm day : string) :
  loaded dDir sDir t fs = Some l →
  (∃ w, workloads l !! nm = Some w ∧ is_Some (days w !! day)) →
  is_cooked (cooked l) (nm, day) = false ∧
  ∀ ck, cookedSummaries l !! nm = Some ck → day ∉ dates ck.
Proof. apply loaded_fresh_days. Qed.


End Cooked.

Lemma loadCooked_populates_witness :
  ∃ l, @loadCooked demo1 canonical_order (newWriteLoader "data" "out") first_run.1.2
         = inr l ∧
       is_cooked (cooked l) ("values=1024", "20230101") = true ∧
       is_cooked (cooked l) ("values=1024", "20230102") = false.
Proof.
  destruct (@loadCooked_populates demo1 canonical_order "data" "out" first_run.1.2)
    as [Hok _].
  destruct (Hok first_doc first_summary) as (l & Hl & _ & _ & Hiff);
    [vm_compute; reflexivity..|].
  exists l. split; [exact Hl|]. split.
  - apply Hiff. eexists. split; [vm_compute; reflexivity|]. left.
  - destruct (is_cooked (cooked l) ("values=1024", "20230102")) eqn:Hc; [|done].
    apply Hiff in Hc as (ws & Hws & Hin). exfalso.
    assert (ws = [mkSummary "values=1024" "20230101" 1000 2%float
                    "20230101-pebble-write-values=1024-1-summary.json"]) as ->.
    { unfold first_summary in Hws. by apply lookup_singleton_Some in Hws as [_ <-]. }
    apply list_elem_of_singleton in Hin. discriminate Hin.
Defined.

Lemma loaded_apart_from_cooked_witness :
  is_cooked (cooked second_loader) ("values=1024", "20230102") = false.
Proof.
  destruct (@loaded_apart_from_cooked demo1 canonical_order _ _ _ _ _
              "values=1024" "20230102" second_loader_loaded) as [Hc _].
  - destruct second_loader_stored as (w & r & Hw & Hr & _). exists w.
    split; [exact Hw|]. exists r. exact Hr.
  - exact Hc.
Defined.


(** ** Storing worker-runs *)

Section Store.
Context `{Collaborators}.

(** [addRawRun] leaves what is stored for another file, day or workload. *)
Lemma addRawRun_stored_other (l : writeLoader) (nm day path : string)
    (raw : rawWriteRun) (nm' day' path' : string) (raw' : rawWriteRun) :
  stored l nm' day' path' raw' →
  path' ≠ path ∨ nm' ≠ nm ∨ day' ≠ day →
  stored (addRawRun l nm day path raw).1 nm' day' path' raw'.
Proof.
  intros (w & r & Hw & Hr & Hp) Hother. unfold addRawRun.
  destruct (decide _); [by exists w, r|]. unfold stored. simpl.
  destruct (decide (nm' = nm)) as [->|Hnm].
  2:{ rewrite lookup_insert_ne by done. by exists w, r. }
  rewrite lookup_insert_eq, Hw. simpl.
  destruct (decide (day' = day)) as [->|Hday].
  2:{ eexists _, r. split; [done|]. simpl.
      rewrite lookup_insert_ne by done. by split. }
  rewrite Hr. simpl. eexists _, _. split; [done|]. simpl.
  rewrite lookup_insert_eq. split; [done|]. simpl.
  rewrite lookup_insert_ne; [done|]. intros ->. by destruct Hother as [?|[?|?]].
Qed.

(** X11.  [addRawRun] with a non-empty worker-run stores it under the
    file's path, where a lookup finds it; it replaces what the same path
    held in that run (adding twice is adding the last); it leaves every
    worker-run stored for another path, day or workload; and a run that
    existed keeps its name, date and directory, so the directory of a run
    is that of the first file added to it. *)
Theorem addRawRun_store (l : writeLoader) (nm day path : string)
    (raw raw2 : rawWriteRun) :
  points raw ≠ [] → points raw2 ≠ [] →
  stored (addRawRun l nm day path raw).1 nm day path raw ∧
  workloads (addRawRun (addRawRun l nm day path raw).1 nm day path raw2).1
    = workloads (addRawRun l nm day path raw2).1 ∧
  (∀ nm' day' path' raw',
     stored l nm' day' path' raw' →
     path' ≠ path ∨ nm' ≠ nm ∨ day' ≠ day →
     stored (addRawRun l nm day path raw).1 nm' day' path' raw') ∧
  (∀ w r, workloads l !! nm = Some w → days w !! day = Some r →
     ∃ w' r', workloads (addRawRun l nm day path raw).1 !! nm = Some w' ∧
              days w' !! day = Some r' ∧
              name r' = name r ∧ date r' = date r ∧ dir r' = dir r ∧
              rawRuns r' = <[path := raw]> (rawRuns r)).
Proof.
  intros Hp Hp2. split; [|split; [|split]].
  - destruct (addRawRun_stored l nm day path raw Hp) as (w & r & ? & ? & ? & _).
    by exists w, r.
  - unfold addRawRun.
    destruct (decide (length (points raw) = 0%nat)) as [Hz|_];
      [by apply length_zero_iff_nil in Hz|].
    destruct (decide (length (points raw2) = 0%nat)) as [Hz|_];
      [by apply length_zero_iff_nil in Hz|].
    simpl. rewrite lookup_insert_eq. simpl. rewrite lookup_insert_eq. simpl.
    rewrite !insert_insert_eq.
    destruct (workloads l !! nm) as [w|]; simpl; [|done].
    by destruct (days w !! day).
  - intros nm' day' path' raw'. apply addRawRun_stored_other.
  - intros w r Hw Hr. unfold addRawRun.
    destruct (decide (length (points raw) = 0%nat)) as [Hz|_];
      [by apply length_zero_iff_nil in Hz|].
    simpl. rewrite lookup_insert_eq, Hw. simpl. eexists _, _.
    split; [done|]. simpl. rewrite lookup_insert_eq, Hr. by simpl.
Qed.

Lemma walkFn_stored_other (l : writeLoader) (f : rawFile)
    (nm day path : string) (raw : rawWriteRun) :
  stored l nm day path raw → path ≠ f_pathRel f →
  stored (walkFn l f).1 nm day path raw.
Proof.
  intros Hst Hne. unfold walkFn. destruct (decide _); [done|].
  destruct (decide _); [done|]. destruct (f_body f); [done..|].
  destruct (scanLines _ _ _ _ _ _) as [[[r nm0]|] d]; [|done].
  pose proof (addRawRun_stored_other l nm0
                (default "" (split_on PathSeparator (f_pathRel f) !! 0%nat))
                (f_pathRel f) r nm day path raw Hst (or_introl Hne)) as Hs.
  by destruct (addRawRun _ _ _ _ _).
Qed.

Lemma walk_steps_stored_other (files : list rawFile) (l : writeLoader)
    (d : list diag) (nm day path : string) (raw : rawWriteRun) :
  stored l nm day path raw → path ∉ f_pathRel <$> files →
  stored (foldl walk_step (l, d) files).1 nm day path raw.
Proof.
  revert l d. induction files as [|f files IH]; intros l d Hst Hnot; [done|].
  rewrite fmap_cons in Hnot. apply not_elem_of_cons in Hnot as [Hne Hnot].
  simpl. unfold walk_step at 2. simpl.
  pose proof (walkFn_stored_other l f nm day path raw Hst Hne) as Hs.
  destruct (walkFn l f) as [l1 d1]. by apply IH.
Qed.

(** X12.  [walkFn] leaves the loader as it is, and reports no added run,
    for a file whose relative path has fewer than six components or no
    [write] in third place (silently), for a file that cannot be opened or
    whose gzip header cannot be read (one diagnostic), and for a file none
    of whose lines yields a sample. *)
Theorem walkFn_ignores (l : writeLoader) (f : rawFile) :
  (¬ accepted_path (f_pathRel f) → walkFn l f = (l, [])) ∧
  (∀ e, accepted_path (f_pathRel f) → f_body f = OpenError e →
        walkFn l f = (l, [DiagOpen e])) ∧
  (∀ e, accepted_path (f_pathRel f) → f_body f = GzipError e →
        walkFn l f = (l, [DiagGzip e])) ∧
  (∀ lines, f_body f = Body lines → file_samples lines = [] →
            (walkFn l f).1 = l ∧
            ∀ a b c e, DiagAdd a b c e ∉ (walkFn l f).2).
Proof.
  unfold accepted_path. split; [|split; [|split]].
  - intros Hno. unfold walkFn. destruct (decide _) as [|Hlen]; [done|].
    destruct (decide _) as [|Hw]; [done|].
    exfalso. apply Hno. split; [lia|by apply dec_stable].
  - intros e [Hlen Hw] Hb. unfold walkFn. destruct (decide _); [lia|].
    destruct (decide _); [done|]. by rewrite Hb.
  - intros e [Hlen Hw] Hb. unfold walkFn. destruct (decide _); [lia|].
    destruct (decide _); [done|]. by rewrite Hb.
  - intros lines Hb Hnone. unfold walkFn.
    destruct (decide _); [split; [done|set_solver]|].
    destruct (decide _); [split; [done|set_solver]|]. rewrite Hb.
    pose proof (scanLines_no_add (cooked l)
                  (default "" (split_on PathSeparator (f_pathRel f) !! 0%nat))
                  (f_pathRel f) rawWriteRun_zero "" lines) as Hnoadd.
    destruct (scanLines _ _ _ _ _ _) as [[[r nm]|] d] eqn:Hs; [|done].
    destruct (scanLines_samples _ _ _ _ _ _ _ _ _ Hs) as [Hpts _].
    rewrite Hnone in Hpts. simpl in Hpts.
    rewrite addRawRun_empty by done. simpl. split; [done|].
    intros a b c e. rewrite app_nil_r. apply Hnoadd.
Qed.

End Store.

Lemma addRawRun_store_witness :
  stored
    (@addRawRun (demo []) one_file_loader "values=1024" "20230101"
       "20230101/pebble/write/values=1024/1/b.gz" (mkRaw [pt 5 1200 true 3] 0)).1
    "values=1024" "20230101" "20230101/pebble/write/values=1024/1/a.gz"
    (mkRaw [pt 5 1000 true 2] 0).
Proof.
  destruct (@addRawRun_store (demo []) one_file_loader "values=1024" "20230101"
              "20230101/pebble/write/values=1024/1/b.gz"
              (mkRaw [pt 5 1200 true 3] 0) (mkRaw [pt 5 1200 true 3] 0))
    as (_ & _ & Hframe & _); [done|done|].
  apply Hframe.
  - exists one_file_workload, one_file_run. repeat split; vm_compute; reflexivity.
  - left. discriminate.
Defined.

Lemma walkFn_ignores_witness :
  @walkFn (demo []) one_file_loader
    (mkFile "data/README" "README" (Body [line_good])) = (one_file_loader, []) ∧
  (@walkFn (demo []) one_file_loader
     (example_file [line_noise; line_bad_ops; line_bad_duration])).1
  = one_file_loader.
Proof.
  split.
  - apply (@walkFn_ignores (demo [])). vm_compute. intros [Hlen _]. lia.
  - destruct (@walkFn_ignores (demo []) one_file_loader
                (example_file [line_noise; line_bad_ops; line_bad_duration]))
      as (_ & _ & _ & Hempty).
    apply (Hempty [line_noise; line_bad_ops; line_bad_duration]);
      vm_compute; reflexivity.
Defined.

Section Filter.
Context `{Collaborators}.

Lemma scanLines_cooked_first ck day pathRel r lines n :
  first_scanned_name lines = Some n → is_cooked ck (n, day) = true →
  ∃ d, scanLines ck day pathRel r "" lines = (None, d) ∧
       last d = Some (DiagSkip pathRel n day).
Proof.
  induction lines as [|line lines IH]; intros Hfirst Hck; [done|].
  rewrite first_scanned_name_cons in Hfirst. simpl.
  destruct (decide (is_record line ∧ scan_ok line)) as [[Hrec Hok]|Hno].
  - injection Hfirst as <-. rewrite scanLine_cooked by done. by eexists.
  - destruct (IH Hfirst Hck) as (d & Hd & Hlast).
    assert (∃ d1, scanLine ck day pathRel r "" line = (Continue r "", d1))
      as [d1 ->].
    { destruct (decide (is_record line)) as [Hrec|Hrec];
        [|eexists; by rewrite scanLine_noise].
      destruct (scan_ok_or_fails line) as [Hok|Hf]; [tauto|].
      eexists. by rewrite scanLine_scan_fails. }
    rewrite Hd. eexists. split; [done|]. by rewrite last_app, Hlast.
Qed.

(** X13.  A file whose first scanned line names a workload that is cooked
    for the day of the file is left at that line: the loader is unchanged
    whatever samples the file holds, no run is reported as added, and the
    last diagnostic reports the skip. *)
Theorem walkFn_skips_cooked (l : writeLoader) (f : rawFile)
    (lines : list string) (n : string) :
  accepted_path (f_pathRel f) → f_body f = Body lines →
  first_scanned_name lines = Some n →
  is_cooked (cooked l) (n, path_day (f_pathRel f)) = true →
  ∃ d, walkFn l f = (l, d) ∧
       last d = Some (DiagSkip (f_pathRel f) n (path_day (f_pathRel f))) ∧
       ∀ a b c e, DiagAdd a b c e ∉ d.
Proof.
  intros [Hlen Hw] Hb Hfirst Hck. unfold walkFn.
  destruct (decide _); [lia|]. destruct (decide _); [done|]. rewrite Hb.
  fold (path_day (f_pathRel f)).
  pose proof (scanLines_no_add (cooked l) (path_day (f_pathRel f)) (f_pathRel f)
                rawWriteRun_zero "" lines) as Hnoadd.
  destruct (scanLines_cooked_first (cooked l) (path_day (f_pathRel f))
              (f_pathRel f) rawWriteRun_zero lines n Hfirst Hck)
    as (d & Hd & Hlast).
  rewrite Hd in *. by exists d.
Qed.

(** X14.  When the walker yields no relative path twice, every file of an
    accepted path whose lines yield a sample is either left early as
    cooked, or its samples, in line order and with an unset memo, are
    stored in the tree after the ingestion under the file's path and the
    day its path starts with. *)
Theorem loadRaw_stores `{MapOrder} (dDir sDir : string) (t : dataTree)
    (fs : fileSystem) (l : writeLoader) (f : rawFile) (lines : list string) :
  loaded dDir sDir t fs = Some l →
  NoDup (f_pathRel <$> t_files t) → f ∈ t_files t →
  accepted_path (f_pathRel f) → f_body f = Body lines →
  file_samples lines ≠ [] →
  (∃ d, scanLines (cooked l) (path_day (f_pathRel f)) (f_pathRel f)
          rawWriteRun_zero "" lines = (None, d)) ∨
  (∃ nm, stored l nm (path_day (f_pathRel f)) (f_pathRel f)
           (mkRaw (file_samples lines) 0)).
Proof.
  intros Hl Hnd Hin [Hlen Hw] Hb Hsamples.
  unfold loaded, loadRaw in Hl.
  destruct (loadCooked _ fs) as [e|l1] eqn:Hlc; [done|].
  apply list_elem_of_split in Hin as (pre & post & Hsplit).
  rewrite Hsplit, foldl_app in Hl. simpl in Hl.
  rewrite Hsplit, fmap_app, fmap_cons in Hnd.
  apply NoDup_app in Hnd as (_ & _ & Hnd). apply NoDup_cons in Hnd as [Hpost _].
  pose proof (walk_steps_fields pre l1 []) as (Hck & _).
  destruct (foldl walk_step (l1, []) pre) as [la da]. simpl in Hck.
  pose proof (walk_steps_fields post (walk_step (la, da) f).1
                (walk_step (la, da) f).2) as (Hck2 & _).
  pose proof (walk_steps_stored_other post (walk_step (la, da) f).1
                (walk_step (la, da) f).2) as Hframe.
  rewrite <- surjective_pairing in Hck2, Hframe.
  destruct (foldl walk_step (walk_step (la, da) f) post) as [l2 d2] eqn:Hfold.
  simpl in Hl, Hck2, Hframe. injection Hl as <-.
  unfold walk_step in Hck2, Hframe. simpl in Hck2, Hframe.
  pose proof (walkFn_fields la f) as (Hck1 & _).
  assert (cooked l2 = cooked la) as Hcooked.
  { destruct (walkFn la f). simpl in *. congruence. }
  rewrite Hcooked.
  destruct (scanLines (cooked la) (path_day (f_pathRel f)) (f_pathRel f)
              rawWriteRun_zero "" lines) as [[[r nm]|] d] eqn:Hs;
    [right|left; by eexists].
  exists nm.
  assert (stored (walkFn la f).1 nm (path_day (f_pathRel f)) (f_pathRel f)
            (mkRaw (file_samples lines) 0)) as Hst.
  { unfold walkFn. destruct (decide _); [lia|]. destruct (decide _); [done|].
    rewrite Hb. fold (path_day (f_pathRel f)). rewrite Hs.
    destruct (scanLines_samples _ _ _ _ _ _ _ _ _ Hs) as [Hpts Hsp].
    destruct r as [pts sp]. simpl in Hpts, Hsp. subst pts sp.
    destruct (addRawRun_stored la nm (path_day (f_pathRel f)) (f_pathRel f)
                (mkRaw (file_samples lines) 0) Hsamples)
      as (w & wr & Hw' & Hr' & Hp' & _).
    destruct (addRawRun la nm _ _ _) as [l' d']. simpl in *. by exists w, wr. }
  destruct (walkFn la f) as [lb db]. simpl in *. by apply Hframe.
Qed.

End Filter.

Lemma walkFn_skips_cooked_witness :
  ∃ d, @walkFn demo1 (mkLoader "data" "out" ∅ {[("values=1024", "20230101") := true]}
                        first_summary)
         (example_file [line_noise; line_good]) =
       (mkLoader "data" "out" ∅ {[("values=1024", "20230101") := true]}
          first_summary, d) ∧
       last d = Some (DiagSkip example_path "values=1024" "20230101").
Proof.
  destruct (@walkFn_skips_cooked demo1
              (mkLoader "data" "out" ∅ {[("values=1024", "20230101") := true]}
                 first_summary)
              (example_file [line_noise; line_good]) [line_noise; line_good]
              "values=1024") as (d & Hd & Hlast & _).
  - vm_compute. split; [lia|reflexivity].
  - reflexivity.
  - vm_compute. reflexivity.
  - vm_compute. reflexivity.
  - exists d. split; [exact Hd|exact Hlast].
Defined.

Lemma loadRaw_stores_witness :
  ∃ nm, stored second_loader nm "20230102" second_path
          (mkRaw (@file_samples demo1 [line_good; line_other_name]) 0).
Proof.
  destruct (@loadRaw_stores demo1 canonical_order "data" "out" second_tree
              first_run.1.2 second_loader
              (mkFile ("data/" +:+ second_path) second_path
                 (Body [line_good; line_other_name]))
              [line_good; line_other_name]) as [[d Hd]|Hst].
  - exact second_loader_loaded.
  - vm_compute. repeat constructor; set_solver.
  - right. left.
  - vm_compute. split; [lia|reflexivity].
  - reflexivity.
  - vm_compute. discriminate.
  - vm_compute in Hd. discriminate Hd.
  - exact Hst.
Defined.

(** ** Names and files of the per-run artifacts *)

Lemma split_on_nonempty (sep : ascii) (s : string) : split_on sep s ≠ [].
Proof.
  destruct s as [|c s]; simpl; [done|].
  destruct (decide _); [done|]. by destruct (split_on sep s).
Qed.

Lemma concat_cons_nonempty (sep x : string) (xs : list string) :
  xs ≠ [] → String.concat sep (x :: xs) = x +:+ sep +:+ String.concat sep xs.
Proof. by destruct xs. Qed.

Lemma concat_snoc (sep x : string) (xs : list string) :
  xs ≠ [] → String.concat sep (xs ++ [x]) = String.concat sep xs +:+ sep +:+ x.
Proof.
  induction xs as [|y ys IH]; intros Hne; [done|].
  destruct ys as [|z zs]; [done|].
  change ((y :: z :: zs) ++ [x]) with (y :: ((z :: zs) ++ [x])).
  rewrite concat_cons_nonempty by done. rewrite IH by done.
  rewrite (concat_cons_nonempty sep y (z :: zs)) by done.
  by rewrite !string_app_assoc.
Qed.

Lemma concat_split_dash (s : string) :
  String.concat "-" (split_on PathSeparator s) = dash_for_sep s.
Proof.
  induction s as [|c s IH]; [done|]. simpl.
  pose proof (split_on_nonempty PathSeparator s) as Hne.
  destruct (decide (c = PathSeparator)) as [->|Hc].
  - rewrite concat_cons_nonempty by done. by rewrite IH.
  - destruct (split_on PathSeparator s) as [|w ws]; [done|].
    rewrite <- IH. destruct ws as [|v vs]; reflexivity.
Qed.

Lemma chars_app (a b : string) : chars (a +:+ b) = chars a ++ chars b.
Proof. induction a as [|c a IH]; [done|]. simpl. by rewrite IH. Qed.

Lemma chars_dash_for_sep (s : string) : PathSeparator ∉ chars (dash_for_sep s).
Proof.
  induction s as [|c s IH]; simpl; [apply not_elem_of_nil|].
  apply not_elem_of_cons. split; [|done].
  destruct (decide (c = PathSeparator)); [done|congruence].
Qed.

Lemma length_app_string (a b : string) :
  String.length (a +:+ b) = (String.length a + String.length b)%nat.
Proof. induction a as [|c a IH]; [done|]. simpl. by rewrite IH. Qed.

(** X15.  The file name of a per-run artifact is the directory of the run
    with every path separator replaced by a dash, followed by
    [-summary.json]; it holds no path separator, so the file lies directly
    in the summary directory, and it is never the name [summary.json] of
    the top-level summary. *)
Theorem summaryFilename_shape (r : writeRun) :
  writeRun_summaryFilename r = dash_for_sep (dir r) +:+ "-" +:+ summaryFilename ∧
  PathSeparator ∉ chars (writeRun_summaryFilename r) ∧
  writeRun_summaryFilename r ≠ summaryFilename.
Proof.
  assert (writeRun_summaryFilename r
          = dash_for_sep (dir r) +:+ "-" +:+ summaryFilename) as Heq.
  { unfold writeRun_summaryFilename.
    rewrite concat_snoc by apply split_on_nonempty.
    by rewrite concat_split_dash. }
  split; [done|]. rewrite Heq. split.
  - rewrite chars_app. intros [Hin|Hin]%elem_of_app.
    + by apply chars_dash_for_sep in Hin.
    + vm_compute in Hin. repeat (apply elem_of_cons in Hin as [Hin|Hin]; [discriminate Hin|]).
      by apply elem_of_nil in Hin.
  - intros Hbad. apply (f_equal String.length) in Hbad.
    rewrite length_app_string in Hbad. simpl in Hbad. lia.
Qed.

Section PerRun.
Context `{Collaborators, MapOrder}.

Lemma write_runs_snoc (l : writeLoader) (runs : list writeRun) (r : writeRun)
    (acc : option string * fileSystem) :
  foldl (write_run_step l) acc (runs ++ [r])
  = write_run_step l (foldl (write_run_step l) acc runs) r.
Proof. by rewrite foldl_app. Qed.

(** The loops of [cookWriteRunSummaries] over any sequence of runs. *)
Lemma write_runs_spec (l : writeLoader) (runs : list writeRun) (fs : fileSystem) :
  let res := foldl (write_run_step l) (None, fs) runs in
  (res.1 = None ↔ ∀ r, r ∈ runs → run_path l r ∉ fs_unwritable fs) ∧
  fs_unreadable res.2 = fs_unreadable fs ∧
  fs_unwritable res.2 = fs_unwritable fs ∧
  (∀ path, (∀ r, r ∈ runs → run_path l r ≠ path) →
           fs_files res.2 !! path = fs_files fs !! path) ∧
  (res.1 = None →
   ∀ r, r ∈ runs →
     ∃ r', r' ∈ runs ∧ run_path l r' = run_path l r ∧
           fs_files res.2 !! run_path l r = Some (formatSummaryJSON r' +:+ nl)).
Proof.
  induction runs as [|r runs IH] using rev_ind; cbv zeta.
  { simpl. split; [split; [intros _ r Hr; by apply elem_of_nil in Hr|done]|].
    do 3 (split; [done|]). intros _ r Hr. by apply elem_of_nil in Hr. }
  rewrite write_runs_snoc. cbv zeta in IH.
  destruct IH as (Hnone & Hur & Huw & Hframe & Hdocs).
  destruct (foldl (write_run_step l) (None, fs) runs) as [[e|] fs1] eqn:Hfold;
    simpl in *.
  - unfold write_run_step. simpl. split; [|split; [done|split; [done|split]]].
    + split; [done|]. intros Hall. apply Hnone. intros r' Hr'. apply Hall.
      apply elem_of_app. by left.
    + intros path Hne. apply Hframe. intros r' Hr'. apply Hne.
      apply elem_of_app. by left.
    + done.
  - unfold write_run_step, outputWriteRunSummary, WriteFile. simpl.
    fold (run_path l r). rewrite Huw.
    assert (∀ r', r' ∈ runs → run_path l r' ∉ fs_unwritable fs) as Hrest
      by (by apply Hnone).
    destruct (decide (run_path l r ∈ fs_unwritable fs)) as [Hin|Hout]; simpl.
    + split; [|split; [done|split; [done|split]]].
      * split; [done|]. intros Hall. exfalso.
        apply (Hall r); [|done]. apply elem_of_app. right. left.
      * intros path Hne. apply Hframe. intros r' Hr'. apply Hne.
        apply elem_of_app. by left.
      * done.
    + split; [|split; [done|split; [done|split]]].
      * split; [|done]. intros _ r' [Hr'|Hr']%elem_of_app; [by apply Hrest|].
        by apply list_elem_of_singleton in Hr' as ->.
      * intros path Hne. rewrite lookup_insert_ne.
        -- apply Hframe. intros r' Hr'. apply Hne. apply elem_of_app. by left.
        -- apply Hne. apply elem_of_app. right. left.
      * intros _ r0 Hr0.
        destruct (decide (run_path l r0 = run_path l r)) as [Heq|Hne].
        -- exists r. split; [apply elem_of_app; right; left|].
           split; [done|]. by rewrite Heq, lookup_insert_eq.
        -- apply elem_of_app in Hr0 as [Hr0|Hr0].
           2:{ apply list_elem_of_singleton in Hr0 as ->. done. }
           destruct (Hdocs eq_refl r0 Hr0) as (r' & Hr' & Hp & Hdoc).
           exists r'. split; [apply elem_of_app; by left|]. split; [done|].
           by rewrite lookup_insert_ne.
Qed.

(** X16.  [cookWriteRunSummaries] succeeds exactly when the path of every
    per-run file can be written; it never changes which paths can be read
    or written, and leaves every file that is not the per-run file of a
    run of the tree as it was; after a success the per-run path of every
    run holds the rendered detail of a run with that path, followed by a
    newline. *)
Theorem cookWriteRunSummaries_writes (l : writeLoader) (fs : fileSystem) :
  let res := cookWriteRunSummaries l fs in
  (res.1 = None ↔ ∀ r, r ∈ all_runs l → run_path l r ∉ fs_unwritable fs) ∧
  fs_unreadable res.2 = fs_unreadable fs ∧
  fs_unwritable res.2 = fs_unwritable fs ∧
  (∀ path, (∀ r, r ∈ all_runs l → run_path l r ≠ path) →
           fs_files res.2 !! path = fs_files fs !! path) ∧
  (res.1 = None →
   ∀ r, r ∈ all_runs l →
     ∃ r', r' ∈ all_runs l ∧ run_path l r' = run_path l r ∧
           fs_files res.2 !! run_path l r = Some (formatSummaryJSON r' +:+ nl)).
Proof. apply write_runs_spec. Qed.

End PerRun.

Lemma cookWriteRunSummaries_writes_witness :
  (@cookWriteRunSummaries demo1 canonical_order first_loader empty_fs).1 = None ∧
  (@cookWriteRunSummaries demo1 canonical_order first_loader locked_fs).1 ≠ None.
Proof.
  destruct (@cookWriteRunSummaries_writes demo1 canonical_order first_loader empty_fs)
    as (Hiff & _).
  destruct (@cookWriteRunSummaries_writes demo1 canonical_order first_loader locked_fs)
    as (Hiff' & _).
  assert (Hall : @all_runs canonical_order first_loader = [first_tree_run])
    by (vm_compute; reflexivity).
  split.
  - apply Hiff. intros r Hr. rewrite Hall in Hr.
    apply list_elem_of_singleton in Hr as ->. vm_compute. set_solver.
  - intros Hnone. apply (proj1 Hiff' Hnone first_tree_run).
    + rewrite Hall. left.
    + vm_compute. set_solver.
Defined.

(** ** How an invocation ends *)

Section Outcome.
Context `{Collaborators, MapOrder}.


End Outcome.


(** ** Reading the CSV back *)

Lemma plain_app (a b : string) : plain a → plain b → plain (a +:+ b).
Proof. unfold plain. rewrite chars_app. apply Forall_app_2. Qed.

Lemma plain_decide (s : string) :
  bool_decide (Forall (λ c, c ≠ comma_char ∧ c ≠ nl_char) (chars s)) = true →
  plain s.
Proof. intros Hb. by apply bool_decide_eq_true in Hb. Qed.

Lemma plain_pretty_N_char (x : N) (s : string) :
  plain s → plain (String (pretty_N_char x) s).
Proof.
  intros Hs. unfold plain. simpl. constructor; [|done].
  unfold pretty_N_char. repeat case_match; by split.
Qed.

Lemma plain_pretty_N_go (x : N) (s : string) : plain s → plain (pretty_N_go x s).
Proof.
  revert s. induction (N.lt_wf_0 x) as [x _ IH]; intros s Hs.
  assert (x = 0 ∨ 0 < x)%N as [->|Hpos] by lia.
  - by rewrite pretty_N_go_0.
  - rewrite pretty_N_go_step by done. apply IH.
    + by apply N.div_lt.
    + by apply plain_pretty_N_char.
Qed.

Lemma plain_pretty_N (x : N) : plain (pretty x).
Proof.
  unfold pretty, pretty_N. destruct (decide _).
  - by apply plain_decide.
  - apply plain_pretty_N_go. by apply plain_decide.
Qed.

Lemma plain_fmt_int (z : Z) : plain (fmt_int z).
Proof.
  unfold fmt_int, pretty, pretty_Z. destruct z as [|p|p].
  - by apply plain_decide.
  - apply plain_pretty_N.
  - apply plain_app; [by apply plain_decide|apply plain_pretty_N].
Qed.

Lemma plain_fmt_bool (b : bool) : plain (fmt_bool b).
Proof. destruct b; by apply plain_decide. Qed.

Lemma plain_two_digits (z : Z) : plain (two_digits z).
Proof.
  unfold two_digits. destruct (decide _); [|apply plain_fmt_int].
  apply plain_app; [by apply plain_decide|apply plain_fmt_int].
Qed.

Lemma plain_fmt_f2 (x : float) : plain (fmt_f2 x).
Proof.
  unfold fmt_f2. destruct (Prim2SF x) as [s|s| |s m e].
  - destruct s; by apply plain_decide.
  - destruct s; by apply plain_decide.
  - by apply plain_decide.
  - apply plain_app; [destruct s; by apply plain_decide|].
    apply plain_app; [apply plain_fmt_int|].
    apply plain_app; [by apply plain_decide|apply plain_two_digits].
Qed.

Lemma split_on_plain (sep : ascii) (s : string) :
  sep ∉ chars s → split_on sep s = [s].
Proof.
  induction s as [|c s IH]; intros Hno; [done|]. simpl in *.
  apply not_elem_of_cons in Hno as [Hne Hno].
  destruct (decide (c = sep)); [congruence|]. by rewrite IH.
Qed.

Lemma split_on_app_sep (sep : ascii) (a b : string) :
  sep ∉ chars a → split_on sep (a +:+ String sep b) = a :: split_on sep b.
Proof.
  induction a as [|c a IH]; intros Hno; simpl.
  - by destruct (decide (sep = sep)).
  - simpl in Hno. apply not_elem_of_cons in Hno as [Hne Hno].
    destruct (decide (c = sep)); [congruence|]. by rewrite IH.
Qed.

Lemma plain_no_comma (s : string) : plain s → comma_char ∉ chars s.
Proof.
  unfold plain. rewrite Forall_forall. intros Hp Hin.
  by destruct (Hp _ Hin).
Qed.

Lemma plain_no_nl (s : string) : plain s → nl_char ∉ chars s.
Proof.
  unfold plain. rewrite Forall_forall. intros Hp Hin.
  by destruct (Hp _ Hin).
Qed.

Lemma formatCSV_point_fields (p : writePoint) :
  split_on comma_char (formatCSV_point p) = csv_fields p.
Proof.
  unfold formatCSV_point, csv_fields.
  repeat match goal with
         | |- context ["," +:+ ?s] => change ("," +:+ s) with (String comma_char s)
         end.
  repeat (rewrite split_on_app_sep
            by (apply plain_no_comma;
                first [apply plain_fmt_int|apply plain_fmt_bool])).
  rewrite split_on_plain; [done|]. apply plain_no_comma, plain_fmt_f2.
Qed.

Lemma no_nl_app (a b : string) :
  nl_char ∉ chars a → nl_char ∉ chars b → nl_char ∉ chars (a +:+ b).
Proof. rewrite chars_app. intros Ha Hb [?|?]%elem_of_app; tauto. Qed.

Lemma no_nl_comma (b : string) :
  nl_char ∉ chars b → nl_char ∉ chars ("," +:+ b).
Proof.
  intros Hb. change ("," +:+ b) with (String comma_char b). simpl.
  apply not_elem_of_cons. by split.
Qed.

Lemma nl_char_not_in_row (p : writePoint) : nl_char ∉ chars (formatCSV_point p).
Proof.
  unfold formatCSV_point.
  repeat first
    [ apply no_nl_comma
    | apply no_nl_app; [apply plain_no_nl;
                        first [apply plain_fmt_int|apply plain_fmt_bool]|] ].
  apply plain_no_nl, plain_fmt_f2.
Qed.

Lemma rows_terminated_split (ps : list writePoint) :
  split_on nl_char (rows_terminated ps) = (formatCSV_point <$> ps) ++ [""].
Proof.
  induction ps as [|p ps IH]; [done|].
  rewrite rows_terminated_cons. change (nl +:+ ?s) with (String nl_char s).
  rewrite split_on_app_sep by apply nl_char_not_in_row. by rewrite IH.
Qed.

(** X18.  The CSV of a worker-run can be read back: splitting it at the
    newlines gives the rows of its samples in order, followed by one empty
    string; splitting a row at the commas gives exactly six fields, none
    of which holds a comma or a newline; and two samples with the same
    row agree on the elapsed seconds, the ops/sec, the pass flag, the
    size and the levels, and on the write amplification as printed. *)
Theorem formatCSV_reads_back (raw : rawWriteRun) :
  split_on nl_char (formatCSV raw) = (formatCSV_point <$> points raw) ++ [""] ∧
  (∀ p, split_on comma_char (formatCSV_point p) = csv_fields p ∧
        Forall plain (csv_fields p)) ∧
  (∀ p q, formatCSV_point p = formatCSV_point q →
     elapsedSecs p = elapsedSecs q ∧ opsSec p = opsSec q ∧
     passed p = passed q ∧ size p = size q ∧ levels p = levels q ∧
     fmt_f2 (writeAmp p) = fmt_f2 (writeAmp q)).
Proof.
  split; [by rewrite formatCSV_rows, rows_terminated_split|]. split.
  - intros p. split; [apply formatCSV_point_fields|].
    unfold csv_fields.
    repeat (constructor;
            first [apply plain_fmt_int|apply plain_fmt_bool|apply plain_fmt_f2|idtac]).
  - intros p q Heq. apply (f_equal (split_on comma_char)) in Heq.
    rewrite !formatCSV_point_fields in Heq. unfold csv_fields, fmt_int in Heq.
    injection Heq as H1 H2 H3 H4 H5 H6.
    apply (inj pretty) in H1, H2, H4, H5.
    repeat split; try done. by destruct (passed p), (passed q).
Qed.

Lemma formatCSV_reads_back_witness :
  split_on nl_char (formatCSV mixed_run)
  = ["1,90,false,1024,3,1.00"; "2,100,true,1024,3,1.00";
     "3,95,false,1024,3,1.00"; "4,110,true,1024,3,1.00";
     "5,120,true,1024,3,2.00"; ""].
Proof.
  destruct (formatCSV_reads_back mixed_run) as [Hsplit _].
  rewrite Hsplit. vm_compute. reflexivity.
Defined.

(** ** The summaries of a workload *)

Section WorkloadSummary.
Context `{MapOrder}.




(** ** The mean and its bounds *)

Lemma sum_Z_bounds (lo hi : Z) (l : list Z) :
  Forall (λ x, lo ≤ x ≤ hi) l →
  Z.of_nat (length l) * lo ≤ sum_Z l ≤ Z.of_nat (length l) * hi.
Proof.
  unfold sum_Z. induction 1 as [|x l Hx _ IH]; simpl; [lia|]. nia.
Qed.

Lemma quot_between (t n lo hi : Z) :
  0 < n → n * lo ≤ t ≤ n * hi → lo ≤ t `quot` n ≤ hi.
Proof.
  intros Hn Ht. pose proof (Z.quot_rem' t n) as Hqr.
  assert ((0 ≤ t → 0 ≤ Z.rem t n < n) ∧ (t ≤ 0 → - n < Z.rem t n ≤ 0))
    as [Hs1 Hs2].
  { split; intros H0.
    - by apply Z.rem_bound_pos.
    - assert (0 ≤ - t) as Hm by (clear Hqr; lia).
      pose proof (Z.rem_bound_pos (- t) n Hm Hn) as Hb.
      rewrite Z.rem_opp_l in Hb by (intros ->; inversion Hn).
      revert Hb. generalize (Z.rem t n). clear. intros; lia. }
  set (q := t `quot` n) in *. set (m := Z.rem t n) in *. clearbody q m.
  split.
  - destruct (decide (lo ≤ q)) as [|Hlt]; [done|]. exfalso.
    assert (n * q ≤ n * (lo - 1)) by (apply Z.mul_le_mono_nonneg_l; lia).
    destruct (decide (0 ≤ t));
      [specialize (Hs1 ltac:(lia))|specialize (Hs2 ltac:(lia))]; nia.
  - destruct (decide (q ≤ hi)) as [|Hlt]; [done|]. exfalso.
    assert (n * (hi + 1) ≤ n * q) by (apply Z.mul_le_mono_nonneg_l; lia).
    destruct (decide (0 ≤ t));
      [specialize (Hs1 ltac:(lia))|specialize (Hs2 ltac:(lia))]; nia.
Qed.

(** X20.  When the sum of the representative throughputs of a run fits a
    64-bit integer, the [OpsSec] of its summary lies between the smallest
    and the largest of them: truncation never takes the mean out of the
    range of the workers' values. *)
Theorem summarize_between (r : writeRun) (s : writeRunSummary) (lo hi : Z) :
  summarize r = Some s →
  int64_range (sum_Z (split_of <$> worker_runs r)) →
  (∀ f raw, rawRuns r !! f = Some raw → lo ≤ split_of raw ≤ hi) →
  lo ≤ OpsSec s ≤ hi.
Proof.
  intros Hs Hrange Hall.
  assert (run_ok r) as Hok by (apply summarize_Some_run_ok; by exists s).
  rewrite (summarize_ok r Hok) in Hs. injection Hs as <-. simpl.
  rewrite wrap64_small by done.
  assert (Forall (λ x, lo ≤ x ≤ hi) (split_of <$> worker_runs r)) as Hf.
  { apply Forall_fmap, Forall_forall. intros raw Hin. unfold worker_runs in Hin.
    apply list_elem_of_fmap in Hin as ([f raw'] & -> & Hin).
    apply elem_of_map_to_list in Hin. by eapply Hall. }
  apply sum_Z_bounds in Hf.
  assert (length (split_of <$> worker_runs r) = base.size (rawRuns r)) as Hlen.
  { unfold worker_runs. by rewrite !length_fmap, length_map_to_list. }
  rewrite Hlen in Hf.
  apply quot_between; [|done].
  destruct Hok as [Hne _].
  assert (base.size (rawRuns r) ≠ 0%nat) by (by intros ?%map_size_empty_iff).
  lia.
Qed.

End WorkloadSummary.


Lemma summarize_between_witness :
  ∃ s, @summarize canonical_order odd_sum_run = Some s ∧ 1000 ≤ OpsSec s ≤ 1001.
Proof.
  destruct (@summarize canonical_order odd_sum_run) as [s|] eqn:Hs;
    [|vm_compute in Hs; discriminate Hs].
  exists s. split; [reflexivity|].
  apply (@summarize_between canonical_order odd_sum_run s 1000 1001 Hs).
  - vm_compute. split; [discriminate|reflexivity].
  - apply (map_Forall_to_list (λ _ raw, 1000 ≤ split_of raw ≤ 1001)).
    vm_compute. repeat constructor; discriminate.
Defined.
